(** * PredictMovieName backend ([backend/app.py]): prompt construction and the
      [/api/identify] handler.

    [identify_movie] formats a prompt with [build_llm_prompt], calls the OpenAI
    chat completion API once, strips and JSON-decodes the text of the first
    choice, and builds the pydantic model [IdentifyResponse] from the decoded
    value; each of the three stages that can fail raises
    [HTTPException(status_code=500)].

    Embedding:
    - a Python [str] is a list of Unicode code points, a Python [float] an
      IEEE binary64 number ([spec_float]), a parsed JSON document a [pyval];
    - [str.strip] and [json.loads] (CPython's decoder, default settings) are
      executable functions; [json.loads] is total, its fuel always suffices
      ([scan_once_fuel]);
    - the construction of [IdentifyResponse] follows pydantic v2 with its
      default configuration (lax mode, extra keys ignored);
    - the OpenAI service is a scripted environment threaded through the
      handler, which records every call;
    - exceptions are values of an outcome type;
    - two texts that libraries produce are parameters of the handler: the
      conversion of a string given for a [float] field, and [str(exc)] of the
      exception raised by the construction of [IdentifyResponse].

    Not modelled: interpreter limits (recursion depth, the digit limit of
    [int]), and what FastAPI does before and after the handler. *)

From Stdlib Require Import List String Ascii ZArith NArith PArith Bool Lia.
From Stdlib Require Import SpecFloat DecimalString.
Import ListNotations.

Set Implicit Arguments.
Local Open Scope Z_scope.

(* ================================================================= *)
(** * Python strings *)

(** A Python [str] is a sequence of Unicode code points. *)
Definition char := N.
Definition str := list char.

(** ASCII literal of the source, as a [str]. *)
Definition lit (s : string) : str :=
  List.map N_of_ascii (list_ascii_of_string s).

Definition char_eqb (a b : char) : bool := N.eqb a b.

Fixpoint str_eqb (a b : str) : bool :=
  match a, b with
  | [], [] => true
  | x :: a', y :: b' => char_eqb x y && str_eqb a' b'
  | _, _ => false
  end.

(** [s.startswith(p)], returning the remainder after the prefix. *)
Fixpoint strip_prefix (p s : str) : option str :=
  match p, s with
  | [], _ => Some s
  | x :: p', y :: s' => if char_eqb x y then strip_prefix p' s' else None
  | _ :: _, [] => None
  end.

(** [needle in hay] *)
Fixpoint contains (needle hay : str) : bool :=
  match strip_prefix needle hay with
  | Some _ => true
  | None => match hay with
            | [] => false
            | _ :: hay' => contains needle hay'
            end
  end.

(** [str.isspace] on one code point (CPython's [_PyUnicode_IsWhitespace]). *)
Definition isspace (c : char) : bool :=
  ((9 <=? c) && (c <=? 13) || (28 <=? c) && (c <=? 32)
   || (c =? 133) || (c =? 160) || (c =? 5760)
   || (8192 <=? c) && (c <=? 8202)
   || (c =? 8232) || (c =? 8233) || (c =? 8239) || (c =? 8287)
   || (c =? 12288))%N.

Fixpoint lstrip (s : str) : str :=
  match s with
  | c :: s' => if isspace c then lstrip s' else s
  | [] => []
  end.

Definition rstrip (s : str) : str := rev (lstrip (rev s)).

(** [s.strip()] with no argument. *)
Definition strip (s : str) : str := rstrip (lstrip s).

(* ================================================================= *)
(** * Python floats *)

(** IEEE 754 binary64. *)
Definition float := spec_float.
Definition prec := 53.
Definition emax := 1024.

(** The correctly rounded binary64 nearest to [(-1)^neg * m * 10^e]
    (round half to even), which is what [float(text)] computes for a decimal
    literal. *)
Definition float_of_decimal (neg : bool) (m : N) (e : Z) : float :=
  match m with
  | N0 => S754_zero neg
  | Npos p =>
      match e with
      | Zneg k =>
          SFdiv prec emax (S754_finite neg p 0)
                (S754_finite false (Pos.pow 10 k) 0)
      | _ => binary_round prec emax neg (p * Z.to_pos (10 ^ e))%positive 0
      end
  end.

(** [float(n)] for a Python [int]: [None] stands for [OverflowError]. *)
Definition float_of_int (n : Z) : option float :=
  match binary_normalize prec emax n 0 false with
  | S754_infinity _ => None
  | f => Some f
  end.

(** The exact integer value of a float, when it has one. *)
Definition float_integer_value (f : float) : option Z :=
  match f with
  | S754_zero _ => Some 0
  | S754_finite s m e =>
      match e with
      | Zneg k =>
          if (Z.pos m mod 2 ^ Z.pos k =? 0)
          then Some (cond_Zopp s (Z.pos m / 2 ^ Z.pos k)) else None
      | _ => Some (cond_Zopp s (Z.pos m * 2 ^ e))
      end
  | _ => None
  end.

(* ================================================================= *)
(** * Python values produced by [json.loads] *)

#[warnings="-register-all"]
Inductive pyval :=
| PNone
| PBool (b : bool)
| PInt (n : Z)
| PFloat (f : float)
| PStr (s : str)
| PList (l : list pyval)
| PDict (d : list (str * pyval)).

(** A [dict] with [str] keys, in insertion order and without duplicate keys. *)
Definition dict := list (str * pyval).

Fixpoint dict_get (d : dict) (k : str) : option pyval :=
  match d with
  | [] => None
  | (k', v) :: d' => if str_eqb k' k then Some v else dict_get d' k
  end.

(** [d[k] = v]: an existing key keeps its position. *)
Fixpoint dict_set (d : dict) (k : str) (v : pyval) : dict :=
  match d with
  | [] => [(k, v)]
  | (k', v') :: d' =>
      if str_eqb k' k then (k', v) :: d' else (k', v') :: dict_set d' k v
  end.

(** [type(v).__name__] *)
Definition type_name (v : pyval) : string :=
  match v with
  | PNone => "NoneType"
  | PBool _ => "bool"
  | PInt _ => "int"
  | PFloat _ => "float"
  | PStr _ => "str"
  | PList _ => "list"
  | PDict _ => "dict"
  end.

(* ================================================================= *)
(** * [json.loads]

    CPython's decoder with default settings ([strict=True], no hooks): the
    scanner of [_json.c] and [JSONDecoder.decode].  The message and position
    of a [JSONDecodeError] are not kept: the handler only catches the class. *)

Definition ord (a : ascii) : char := N_of_ascii a.
Definition dquote : char := 34%N.
Arguments ord : simpl never.

Inductive scan (A : Type) :=
| Scanned (a : A) (rest : str)
| DecodeError
| OutOfFuel.
Arguments DecodeError {A}.
Arguments OutOfFuel {A}.

(** JSON whitespace: space, tab, line feed, carriage return. *)
Definition is_json_ws (c : char) : bool :=
  ((c =? 32) || (c =? 9) || (c =? 10) || (c =? 13))%N.

Fixpoint skip_ws (s : str) : str :=
  match s with
  | c :: s' => if is_json_ws c then skip_ws s' else s
  | [] => []
  end.

Definition is_digit (c : char) : bool := ((48 <=? c) && (c <=? 57))%N.

Definition hexval (c : char) : option N :=
  (if (48 <=? c) && (c <=? 57) then Some (c - 48)
   else if (97 <=? c) && (c <=? 102) then Some (c - 87)
   else if (65 <=? c) && (c <=? 70) then Some (c - 55)
   else None)%N.

Definition hex4 (a b c d : char) : option N :=
  match hexval a, hexval b, hexval c, hexval d with
  | Some x, Some y, Some z, Some w => Some (((x * 16 + y) * 16 + z) * 16 + w)%N
  | _, _, _, _ => None
  end.

Definition is_high_surrogate (c : N) : bool := ((55296 <=? c) && (c <=? 56319))%N.
Definition is_low_surrogate (c : N) : bool := ((56320 <=? c) && (c <=? 57343))%N.
Definition join_surrogates (hi lo : N) : N :=
  (65536 + ((hi - 55296) * 1024 + (lo - 56320)))%N.

(** The one-character escapes of a JSON string. *)
Definition backslash (c : char) : option char :=
  (if c =? dquote then Some (dquote)
   else if c =? ord "\" then Some (ord "\")
   else if c =? ord "/" then Some (ord "/")
   else if c =? ord "b" then Some 8
   else if c =? ord "f" then Some 12
   else if c =? ord "n" then Some 10
   else if c =? ord "r" then Some 13
   else if c =? ord "t" then Some 9
   else None)%N.

(** [scanstring]: [s] starts just after the opening quote; [acc] holds the
    decoded characters so far, most recent first. *)
Fixpoint scanstring (s : str) (acc : str) : scan str :=
  match s with
  | [] => DecodeError                      (* unterminated string *)
  | c :: s1 =>
      if (c =? dquote)%N then Scanned (rev acc) s1
      else if (c =? ord "\")%N then
        match s1 with
        | [] => DecodeError
        | e :: s2 =>
            if (e =? ord "u")%N then
              match s2 with
              | h1 :: h2 :: h3 :: h4 :: s3 =>
                  match hex4 h1 h2 h3 h4 with
                  | None => DecodeError    (* invalid \uXXXX escape *)
                  | Some uni =>
                      if is_high_surrogate uni then
                        match s3 with
                        | b :: u :: g1 :: g2 :: g3 :: g4 :: s4 =>
                            if ((b =? ord "\") && (u =? ord "u"))%N then
                              match hex4 g1 g2 g3 g4 with
                              | None => DecodeError
                              | Some uni2 =>
                                  if is_low_surrogate uni2
                                  then scanstring s4 (join_surrogates uni uni2 :: acc)
                                  else scanstring s3 (uni :: acc)
                              end
                            else scanstring s3 (uni :: acc)
                        | _ => scanstring s3 (uni :: acc)
                        end
                      else scanstring s3 (uni :: acc)
                  end
              | _ => DecodeError
              end
            else
              match backslash e with
              | Some c' => scanstring s2 (c' :: acc)
              | None => DecodeError        (* invalid \escape *)
              end
        end
      else if (c <? 32)%N then DecodeError (* control character, strict mode *)
      else scanstring s1 (c :: acc)
  end.

(** Reads a run of ASCII digits: the number read so far, how many digits were
    read, and the rest. *)
Fixpoint scan_digits (s : str) (acc : N) (count : nat) : N * nat * str :=
  match s with
  | c :: s' =>
      if is_digit c then scan_digits s' (acc * 10 + (c - 48))%N (S count)
      else (acc, count, s)
  | [] => (acc, count, [])
  end.

(** Fraction part: a dot followed by at least one digit. *)
Definition scan_frac (s : str) : option (N * nat * str) :=
  match s with
  | dot :: s1 =>
      if (dot =? ord ".")%N then
        match scan_digits s1 0 0 with
        | (_, O, _) => None
        | r => Some r
        end
      else None
  | [] => None
  end.

(** Exponent part: [e] or [E], an optional sign, at least one digit. *)
Definition scan_exp (s : str) : option (Z * str) :=
  match s with
  | e :: s1 =>
      if ((e =? ord "e") || (e =? ord "E"))%N then
        let '(neg, s2) :=
          match s1 with
          | sg :: s2 =>
              if (sg =? ord "-")%N then (true, s2)
              else if (sg =? ord "+")%N then (false, s2)
              else (false, s1)
          | [] => (false, s1)
          end in
        match scan_digits s2 0 0 with
        | (_, O, _) => None
        | (n, _, rest) => Some (cond_Zopp neg (Z.of_N n), rest)
        end
      else None
  | [] => None
  end.

(** [_match_number]: an optional minus sign; an integer part that is [0] or
    starts with a non-zero digit; an optional fraction (dot and digits); an
    optional exponent.  [scan_number] returns the sign, the decimal mantissa
    and exponent, whether a fraction or an exponent was present, and the
    rest. *)
Definition scan_number (s : str) : option (bool * N * Z * bool * str) :=
  let '(neg, s0) :=
    match s with
    | c :: s' => if (c =? ord "-")%N then (true, s') else (false, s)
    | [] => (false, s)
    end in
  match s0 with
  | [] => None
  | c :: s1 =>
      if is_digit c then
        let '(int, _, s2) :=
          if (c =? ord "0")%N then (0%N, 1%nat, s1)
          else scan_digits s1 (c - 48)%N 1 in
        let '(m, e, is_float, s3) :=
          match scan_frac s2 with
          | Some (frac, nfrac, s3) =>
              ((int * 10 ^ N.of_nat nfrac + frac)%N, - Z.of_nat nfrac, true, s3)
          | None => (int, 0, false, s2)
          end in
        match scan_exp s3 with
        | Some (x, rest) => Some (neg, m, e + x, true, rest)
        | None => Some (neg, m, e, is_float, s3)
        end
      else None
  end.

(** An integer literal gives an [int]; a literal with a fraction or an
    exponent gives a [float]. *)
Definition match_number (s : str) : scan pyval :=
  match scan_number s with
  | Some (neg, m, e, true, rest) => Scanned (PFloat (float_of_decimal neg m e)) rest
  | Some (neg, m, _, false, rest) => Scanned (PInt (cond_Zopp neg (Z.of_N m))) rest
  | None => DecodeError
  end.

(** Named constants, then numbers. *)
Definition scan_constant (s : str) : scan pyval :=
  match strip_prefix (lit "null") s with
  | Some rest => Scanned PNone rest
  | None =>
  match strip_prefix (lit "true") s with
  | Some rest => Scanned (PBool true) rest
  | None =>
  match strip_prefix (lit "false") s with
  | Some rest => Scanned (PBool false) rest
  | None =>
  match strip_prefix (lit "NaN") s with
  | Some rest => Scanned (PFloat S754_nan) rest
  | None =>
  match strip_prefix (lit "Infinity") s with
  | Some rest => Scanned (PFloat (S754_infinity false)) rest
  | None =>
  match strip_prefix (lit "-Infinity") s with
  | Some rest => Scanned (PFloat (S754_infinity true)) rest
  | None => match_number s
  end end end end end end.

(** [scan_once] dispatches on the first character; [parse_object] and
    [parse_array] start just after the opening bracket and loop over the
    members.  Every recursive call spends one unit of [fuel]. *)
Fixpoint scan_once (fuel : nat) (s : str) : scan pyval :=
  match fuel with
  | O => OutOfFuel
  | S fuel' =>
      match s with
      | [] => DecodeError                  (* expecting value *)
      | c :: s' =>
          if (c =? dquote)%N then
            match scanstring s' [] with
            | Scanned k rest => Scanned (PStr k) rest
            | DecodeError => DecodeError
            | OutOfFuel => OutOfFuel
            end
          else if (c =? ord "{")%N then
            match skip_ws s' with
            | c1 :: s1 =>
                if (c1 =? ord "}")%N then Scanned (PDict []) s1
                else object_members fuel' (c1 :: s1) []
            | [] => DecodeError
            end
          else if (c =? ord "[")%N then
            match skip_ws s' with
            | c1 :: s1 =>
                if (c1 =? ord "]")%N then Scanned (PList []) s1
                else array_items fuel' (c1 :: s1) []
            | [] => DecodeError
            end
          else scan_constant s
      end
  end

with object_members (fuel : nat) (s : str) (d : dict) : scan pyval :=
  match fuel with
  | O => OutOfFuel
  | S fuel' =>
      match s with
      | q :: s1 =>
          if (q =? dquote)%N then
            match scanstring s1 [] with
            | Scanned key s2 =>
                match skip_ws s2 with
                | colon :: s3 =>
                    if (colon =? ord ":")%N then
                      match scan_once fuel' (skip_ws s3) with
                      | Scanned v s4 =>
                          let d' := dict_set d key v in
                          match skip_ws s4 with
                          | c :: s5 =>
                              if (c =? ord "}")%N then Scanned (PDict d') s5
                              else if (c =? ord ",")%N
                              then object_members fuel' (skip_ws s5) d'
                              else DecodeError   (* expecting ',' *)
                          | [] => DecodeError
                          end
                      | DecodeError => DecodeError
                      | OutOfFuel => OutOfFuel
                      end
                    else DecodeError             (* expecting ':' *)
                | [] => DecodeError
                end
            | DecodeError => DecodeError
            | OutOfFuel => OutOfFuel
            end
          else DecodeError                       (* expecting property name *)
      | [] => DecodeError
      end
  end

with array_items (fuel : nat) (s : str) (acc : list pyval) : scan pyval :=
  match fuel with
  | O => OutOfFuel
  | S fuel' =>
      match scan_once fuel' s with
      | Scanned v s1 =>
          match skip_ws s1 with
          | c :: s2 =>
              if (c =? ord "]")%N then Scanned (PList (rev (v :: acc))) s2
              else if (c =? ord ",")%N
              then array_items fuel' (skip_ws s2) (v :: acc)
              else DecodeError                   (* expecting ',' *)
          | [] => DecodeError
          end
      | DecodeError => DecodeError
      | OutOfFuel => OutOfFuel
      end
  end.

(** What [json.loads(s)] does for a [str] argument. *)
Inductive loads_result :=
| Loaded (v : pyval)
| RaisesJSONDecodeError.

Definition json_loads (s : str) : loads_result :=
  match s with
  | 65279%N :: _ => RaisesJSONDecodeError        (* unexpected UTF-8 BOM *)
  | _ =>
      match scan_once (2 * S (List.length s)) (skip_ws s) with
      | Scanned v rest =>
          match skip_ws rest with
          | [] => Loaded v
          | _ :: _ => RaisesJSONDecodeError      (* extra data *)
          end
      | DecodeError => RaisesJSONDecodeError
      | OutOfFuel => RaisesJSONDecodeError       (* never: [scan_once_fuel] *)
      end
  end.

(** A scan that did not exhaust its fuel and, when it succeeds, consumed at
    least one character of [s]. *)
Definition scan_ok (s : str) (res : scan pyval) : Prop :=
  res <> OutOfFuel /\
  forall v r, res = Scanned v r -> (List.length r < List.length s)%nat.

(* ================================================================= *)
(** * The request and response models *)

(** [class IdentifyRequest(BaseModel)] *)
Record IdentifyRequest := { User_query : str }.

(** [class IdentifyResponse(BaseModel)]: each field is required. *)
Record IdentifyResponse := {
  movie_name : str;
  release_date : str;
  rationale : str;
  confidence : float
}.

(* ================================================================= *)
(** * [build_llm_prompt] *)

Definition build_llm_prompt (plot : str) : str :=
  lit "You are a world" ++ [8209%N] ++
  lit "class movie identification assistant. Given a plot description, you " ++
  lit "search the internet for clues (even though you rely on your own knowledge) and deduce " ++
  lit "the most likely movie. You must provide four fields: movie_name, release_date, " ++
  lit "rationale, and confidence. The rationale should explain why the selected movie fits " ++
  lit "the description, referencing key plot points, actors, or unique elements. Confidence " ++
  lit "should be a float between 0 and 1 representing your certainty." ++ [10%N; 10%N] ++
  lit "Plot: " ++ plot ++ [10%N; 10%N] ++
  lit "Respond with a JSON object using these exact keys: movie_name, release_date, rationale, " ++
  lit "confidence.".

(* ================================================================= *)
(** * The OpenAI client *)

(** A message of the request, [{"role": ..., "content": ...}]: its role and
    its content. *)
Definition message_param := (str * str)%type.

(** The keyword arguments of [openai.chat.completions.create]. *)
Record ChatRequest := {
  model : str;
  messages : list message_param;
  max_tokens : Z;
  temperature : float;
  top_p : float
}.

(** The part of the returned [ChatCompletion] the handler reads:
    [completion.choices[i].message.content], an optional string. *)
Record ChatCompletionMessage := { content : option str }.
Record Choice := { message : ChatCompletionMessage }.
Record ChatCompletion := { choices : list Choice }.

(** The call returns a completion or raises an [Exception]; [error_str] is
    [str(e)] of that exception. *)
Inductive create_result :=
| Completes (completion : ChatCompletion)
| Fails (error_str : str).

(** The service as the handler sees it: [respond n r] is the result of the
    call number [n] when it is made with arguments [r]; [calls] records the
    calls made so far. *)
Record openai := {
  respond : nat -> ChatRequest -> create_result;
  calls : list ChatRequest
}.

Definition create (r : ChatRequest) (w : openai) : create_result * openai :=
  (respond w (List.length (calls w)) r,
   {| respond := respond w; calls := calls w ++ [r] |}).

(* ================================================================= *)
(** * Outcomes of the handler *)

Inductive exn :=
| HTTPException (status_code : Z) (detail : str)
| IndexError          (* [completion.choices[0]] on an empty list *)
| AttributeError.     (* [.strip()] on a [None] content *)

Inductive outcome :=
| Returns (response : IdentifyResponse)
| Raises (e : exn).

Definition chat_request (prompt : str) : ChatRequest :=
  {| model := lit "gpt-4o";
     messages := [ (lit "system", lit "You are a helpful assistant.");
                   (lit "user", prompt) ];
     max_tokens := 400;
     temperature := float_of_decimal false 3 (-1);
     top_p := float_of_decimal false 95 (-2) |}.

(* ================================================================= *)
(** * Validation and the handler *)

(** ** Building an [IdentifyResponse] from keyword arguments

    pydantic v2 with the default configuration: lax mode, extra keys ignored,
    the errors of all fields collected in declaration order. *)

Inductive error_type :=
| missing            (* Field required *)
| string_type        (* Input should be a valid string *)
| float_type         (* Input should be a valid number *)
| float_parsing.     (* ... unable to parse string as a number *)

Record ErrorDetails := {
  loc : str;
  type : error_type;
  input : pyval
}.

(** What the call of [IdentifyResponse] on [**result] raises: a [TypeError]
    when [result] is not a mapping, a [ValidationError] with at least one line
    otherwise. *)
Inductive init_error :=
| TypeError (result : pyval)
| ValidationError (errors : list ErrorDetails).

Definition validate_str (v : pyval) : str + error_type :=
  match v with
  | PStr s => inl s
  | _ => inr string_type
  end.

Definition field_names : list str :=
  [lit "movie_name"; lit "release_date"; lit "rationale"; lit "confidence"].

Section Handler.

(** Two texts are produced outside this repository and are left open: how
    pydantic-core converts a string given for a [float] field, and what
    [str(exc)] is for the exception raised by the call of [IdentifyResponse]. *)
Variable str_as_float : str -> option float.
Variable exc_str : init_error -> str.

Definition validate_float (v : pyval) : float + error_type :=
  match v with
  | PFloat f => inl f
  | PStr s =>
      match str_as_float s with
      | Some f => inl f
      | None => inr float_parsing
      end
  | PInt n =>
      match float_of_int n with
      | Some f => inl f
      | None => inr float_type
      end
  | PBool b => inl (binary_normalize prec emax (if b then 1 else 0) 0 false)
  | _ => inr float_type
  end.

Definition validate_field {A : Type} (validator : pyval -> A + error_type)
    (data : dict) (name : str) : A + list ErrorDetails :=
  match dict_get data name with
  | None => inr [ {| loc := name; type := missing; input := PDict data |} ]
  | Some v =>
      match validator v with
      | inl a => inl a
      | inr t => inr [ {| loc := name; type := t; input := v |} ]
      end
  end.

Definition line_errors {A : Type} (r : A + list ErrorDetails) : list ErrorDetails :=
  match r with
  | inl _ => []
  | inr errs => errs
  end.

Definition IdentifyResponse_validate (data : dict)
    : IdentifyResponse + list ErrorDetails :=
  let m := validate_field validate_str data (lit "movie_name") in
  let d := validate_field validate_str data (lit "release_date") in
  let r := validate_field validate_str data (lit "rationale") in
  let c := validate_field validate_float data (lit "confidence") in
  match m, d, r, c with
  | inl m', inl d', inl r', inl c' =>
      inl {| movie_name := m'; release_date := d'; rationale := r';
             confidence := c' |}
  | _, _, _, _ =>
      inr (line_errors m ++ line_errors d ++ line_errors r ++ line_errors c)
  end.

(** The call of [IdentifyResponse] on [**result]. *)
Definition IdentifyResponse_new (result : pyval) : IdentifyResponse + init_error :=
  match result with
  | PDict data =>
      match IdentifyResponse_validate data with
      | inl response => inl response
      | inr errs => inr (ValidationError errs)
      end
  | _ => inr (TypeError result)
  end.

(** ** [identify_movie] *)

Definition identify_movie (req : IdentifyRequest) (w : openai) : outcome * openai :=
  let prompt := build_llm_prompt (User_query req) in
  let (called, w') := create (chat_request prompt) w in
  match called with
  | Fails e =>
      (Raises (HTTPException 500 (lit "OpenAI API error: " ++ e)), w')
  | Completes completion =>
      match choices completion with
      | [] => (Raises IndexError, w')
      | choice :: _ =>
          match content (message choice) with
          | None => (Raises AttributeError, w')
          | Some text =>
              let content := strip text in
              match json_loads content with
              | RaisesJSONDecodeError =>
                  (Raises (HTTPException 500
                     (lit "Failed to parse response as JSON. Raw response was: "
                      ++ content)), w')
              | Loaded result =>
                  match IdentifyResponse_new result with
                  | inr exc =>
                      (Raises (HTTPException 500
                         (lit "Response JSON missing required fields or invalid types: "
                          ++ exc_str exc)), w')
                  | inl response => (Returns response, w')
                  end
              end
          end
      end
  end.

(** ** Reading the handler stage by stage *)

(** What the service answers to the one call the handler makes. *)
Definition upstream_answer (req : IdentifyRequest) (w : openai) : create_result :=
  respond w (List.length (calls w)) (chat_request (build_llm_prompt (User_query req))).

(** The service answers with a completion whose first choice holds [text]. *)
Definition answers_text (req : IdentifyRequest) (w : openai) (text : str) : Prop :=
  exists others,
    upstream_answer req w
    = Completes {| choices := {| message := {| content := Some text |} |} :: others |}.

(** The world after a call of the handler: one more call on record. *)
Definition after_call (req : IdentifyRequest) (w : openai) : openai :=
  {| respond := respond w;
     calls := calls w ++ [chat_request (build_llm_prompt (User_query req))] |}.

(** A value that the validator of a [str] field rejects. *)
Definition not_a_string (v : pyval) : bool :=
  match v with
  | PStr _ => false
  | _ => true
  end.

(** A value that the validator of the [float] field rejects: [None], a list,
    a dict, a string without a conversion, an integer beyond the float range. *)
Definition not_a_float (v : pyval) : bool :=
  match v with
  | PFloat _ | PBool _ => false
  | PInt n => match float_of_int n with Some _ => false | None => true end
  | PStr s => match str_as_float s with Some _ => false | None => true end
  | _ => true
  end.

(** Field [name] of [data] is absent or rejected by its validator. *)
Definition offending (data : dict) (name : str) : bool :=
  match dict_get data name with
  | None => true
  | Some v =>
      if str_eqb name (lit "confidence") then not_a_float v else not_a_string v
  end.


End Handler.

(* ================================================================= *)
(** * Vocabulary of the statements *)

(** The fixed text before and after the plot in the prompt. *)
Definition prompt_head : str :=
  Eval cbv in
  lit "You are a world" ++ [8209%N] ++
  lit "class movie identification assistant. Given a plot description, you " ++
  lit "search the internet for clues (even though you rely on your own knowledge) and deduce " ++
  lit "the most likely movie. You must provide four fields: movie_name, release_date, " ++
  lit "rationale, and confidence. The rationale should explain why the selected movie fits " ++
  lit "the description, referencing key plot points, actors, or unique elements. Confidence " ++
  lit "should be a float between 0 and 1 representing your certainty." ++ [10%N; 10%N] ++
  lit "Plot: ".

Definition prompt_tail : str :=
  Eval cbv in
  [10%N; 10%N] ++
  lit "Respond with a JSON object using these exact keys: movie_name, release_date, rationale, " ++
  lit "confidence.".

(** A decoded JSON number: an [int] or a [float]. *)
Definition is_number (n : pyval) : Prop :=
  match n with
  | PInt _ | PFloat _ => True
  | _ => False
  end.

(** The float [f] has the value of the decoded number [n]: it is that float,
    or its exact value is that integer. *)
Definition same_number (n : pyval) (f : float) : Prop :=
  match n with
  | PFloat g => g = f
  | PInt z => float_integer_value f = Some z
  | _ => False
  end.

(** A decoded number that has a float of its own value: every float, and
    every integer that [float(n)] converts without rounding or overflow. *)
Definition exactly_representable (n : pyval) : Prop :=
  match n with
  | PFloat _ => True
  | PInt z =>
      match float_of_int z with
      | Some f => float_integer_value f = Some z
      | None => False
      end
  | _ => False
  end.


(** A JSON text written with apostrophes in place of double quotes. *)
Definition json_lit (s : string) : str :=
  List.map (fun c => if (c =? 39)%N then dquote else c) (lit s).

(* ================================================================= *)
(** * A concrete runtime, for running the handler on examples *)

(** A string conversion that accepts exactly the decimal literals of the JSON
    number grammar; pydantic-core accepts these (and further spellings). *)
Definition decimal_str_as_float (s : str) : option float :=
  match scan_number s with
  | Some (neg, m, e, _, []) => Some (float_of_decimal neg m e)
  | _ => None
  end.

Definition error_msg (t : error_type) : string :=
  match t with
  | missing => "Field required [type=missing]"
  | string_type => "Input should be a valid string [type=string_type]"
  | float_type => "Input should be a valid number [type=float_type]"
  | float_parsing =>
      "Input should be a valid number, unable to parse string as a number [type=float_parsing]"
  end.

(** A rendering of the two exceptions in the layout of CPython and pydantic,
    without the echo of the input value. *)
Definition plain_exc_str (e : init_error) : str :=
  match e with
  | TypeError v =>
      lit "IdentifyResponse() argument after ** must be a mapping, not "
      ++ lit (type_name v)
  | ValidationError errs =>
      lit (NilEmpty.string_of_uint (Nat.to_uint (List.length errs)))
      ++ lit " validation error(s) for IdentifyResponse"
      ++ List.concat
           (List.map (fun d => [10%N] ++ loc d ++ [10%N] ++ lit "  "
                               ++ lit (error_msg (type d))) errs)
  end.

(** A service that answers every call with one completion holding [text]. *)
Definition stub_completion (text : str) : openai :=
  {| respond := fun _ _ => Completes {| choices := [ {| message := {| content := Some text |} |} ] |};
     calls := [] |}.

(** A service whose every call raises an exception with message [msg]. *)
Definition stub_failure (msg : str) : openai :=
  {| respond := fun _ _ => Fails msg; calls := [] |}.

(** ** Requests and completions of the examples *)

Definition heist : IdentifyRequest := {| User_query := lit "a thief enters dreams" |}.

Definition inception_text : str :=
  json_lit "{'movie_name':'Inception','release_date':'2010-07-16','rationale':'dream heist','confidence':0.87}".

Definition inception : IdentifyResponse :=
  {| movie_name := lit "Inception"; release_date := lit "2010-07-16";
     rationale := lit "dream heist";
     confidence := float_of_decimal false 87 (-2) |}.

(** The object of [inception_text] once decoded. *)
Definition inception_dict : dict :=
  [ (lit "movie_name", PStr (lit "Inception"));
    (lit "release_date", PStr (lit "2010-07-16"));
    (lit "rationale", PStr (lit "dream heist"));
    (lit "confidence", PFloat (float_of_decimal false 87 (-2))) ].

Definition missing_confidence_text : str :=
  json_lit "{'movie_name':'Inception','release_date':'2010-07-16','rationale':'dream heist'}".

Definition quoted_confidence_text : str :=
  json_lit "{'movie_name':'A','release_date':'B','rationale':'C','confidence':'0.5'}".

Definition big_confidence_text : str :=
  json_lit "{'movie_name':'A','release_date':'B','rationale':'C','confidence':9007199254740993}".


Definition padded_text : str :=
  [10%N; 32%N; 11%N]
  ++ (ord "{" :: json_lit "'movie_name':'Inception','release_date':'2010-07-16','rationale':'dream heist','confidence':0.87"
              ++ [ord "}"])
  ++ [32%N; 160%N; 10%N].


(* ================================================================= *)
(** * Module start-up

    The statements of the module that run before the app is created:
    [load_dotenv()], [os.getenv], the check of the key. *)

(** [os.environ], and the bindings of a [.env] file: names to values. *)
Definition environ := str -> option str.

(** [load_dotenv()] with its defaults: when a [.env] file is found, its
    bindings are added for the names the environment does not define. *)
Definition load_dotenv (dotenv : option environ) (env : environ) : environ :=
  fun name =>
    match env name with
    | Some v => Some v
    | None =>
        match dotenv with
        | Some file => file name
        | None => None
        end
    end.

(** [os.getenv(name)] *)
Definition getenv (env : environ) (name : str) : option str := env name.

Inductive startup_result :=
| Started (api_key : str)         (* [openai.api_key] is set, the app is created *)
| RaisesRuntimeError (msg : str).

(** The statements of the module before the app is created. *)
Definition startup (dotenv : option environ) (env : environ) : startup_result :=
  let env' := load_dotenv dotenv env in
  match getenv env' (lit "OPENAI_API_KEY") with
  | Some (c :: key) => Started (c :: key)
  | _ =>
      RaisesRuntimeError
        (lit "OPENAI_API_KEY is not set. Please create a .env file based on .env.example and provide your API key.")
  end.

(* ================================================================= *)
(** * Further vocabulary and examples *)

(** The characters a JSON value of the decoder can start with. *)
Definition json_value_start (c : char) : bool :=
  ((c =? dquote) || (c =? ord "{") || (c =? ord "[") || (c =? ord "-")
   || is_digit c || (c =? ord "n") || (c =? ord "t") || (c =? ord "f")
   || (c =? ord "N") || (c =? ord "I"))%N.

(** An environment that defines [OPENAI_API_KEY] with an empty value, and a
    [.env] file that gives it a value. *)
Definition empty_key_environ : environ :=
  fun name => if str_eqb name (lit "OPENAI_API_KEY") then Some [] else None.

Definition dotenv_with_key : environ :=
  fun name => if str_eqb name (lit "OPENAI_API_KEY") then Some (lit "sk-test") else None.

Definition western : IdentifyRequest := {| User_query := lit "a stranger rides into town" |}.

(** A service that has already been called once and answers with two
    choices, the first holding [text]. *)
Definition busy_service (text : str) : openai :=
  {| respond := fun _ _ =>
       Completes {| choices := [ {| message := {| content := Some text |} |};
                                 {| message := {| content := None |} |} ] |};
     calls := [chat_request (lit "earlier prompt")] |}.

(** The service of [stub_completion] after one earlier call. *)
Definition later_service (text : str) : openai :=
  {| respond := respond (stub_completion text);
     calls := [chat_request (lit "earlier prompt")] |}.

(** The object of [inception_text] inside a Markdown code fence. *)
Definition fenced_text : str :=
  lit "```json" ++ [10%N] ++ inception_text ++ [10%N] ++ lit "```".

Definition reordered_text : str :=
  json_lit "{'confidence':0.87,'id':7,'rationale':'dream heist','release_date':'2010-07-16','movie_name':'Inception'}".

Definition integer_confidence_text : str :=
  json_lit "{'movie_name':'Inception','release_date':'2010-07-16','rationale':'dream heist','confidence':1}".

(* ================================================================= *)
(** * Strings: equality, prefixes, containment, stripping *)

Lemma str_eqb_eq (a b : str) : str_eqb a b = true <-> a = b.
Proof.
  revert b. induction a as [|x a IH]; intros [|y b]; simpl; split;
    try congruence; try reflexivity.
  - intros H. apply andb_true_iff in H as [Hx Hab].
    apply N.eqb_eq in Hx. apply IH in Hab. congruence.
  - intros H. inversion H; subst. apply andb_true_iff. split.
    + apply N.eqb_refl.
    + now apply IH.
Qed.

Lemma str_eqb_refl (a : str) : str_eqb a a = true.
Proof. now apply str_eqb_eq. Qed.


Lemma strip_prefix_app (p s : str) : strip_prefix p (p ++ s) = Some s.
Proof.
  induction p as [|x p IH]; simpl; [reflexivity|].
  unfold char_eqb. now rewrite N.eqb_refl.
Qed.

Lemma strip_prefix_Some (p s r : str) : strip_prefix p s = Some r -> s = p ++ r.
Proof.
  revert s. induction p as [|x p IH]; intros s H; simpl in *.
  - congruence.
  - destruct s as [|y s]; [discriminate|].
    unfold char_eqb in H. destruct (N.eqb_spec x y); [|discriminate].
    subst. f_equal. now apply IH.
Qed.

Lemma contains_unfold (n h : str) :
  contains n h =
  match strip_prefix n h with
  | Some _ => true
  | None => match h with [] => false | _ :: h' => contains n h' end
  end.
Proof. destruct h; reflexivity. Qed.

Lemma contains_here (n rest : str) : contains n (n ++ rest) = true.
Proof. rewrite contains_unfold. now rewrite strip_prefix_app. Qed.

Lemma contains_app (n a b : str) : contains n (a ++ n ++ b) = true.
Proof.
  induction a as [|x a IH]; simpl app.
  - apply contains_here.
  - rewrite contains_unfold. destruct (strip_prefix n (x :: a ++ n ++ b)); auto.
Qed.

Lemma contains_split (n h : str) :
  contains n h = true -> exists a b, h = a ++ n ++ b.
Proof.
  induction h as [|x h IH]; rewrite contains_unfold.
  - destruct (strip_prefix n []) as [r|] eqn:E; [|discriminate].
    intros _. apply strip_prefix_Some in E. now exists [], r.
  - destruct (strip_prefix n (x :: h)) as [r|] eqn:E.
    + intros _. apply strip_prefix_Some in E. now exists [], r.
    + intros H. destruct (IH H) as (a & b & ->). now exists (x :: a), b.
Qed.

(** Containment is exactly occurrence as a contiguous block. *)
Lemma contains_spec (n h : str) :
  contains n h = true <-> exists a b, h = a ++ n ++ b.
Proof.
  split; [apply contains_split|]. intros (a & b & ->). apply contains_app.
Qed.

Lemma lstrip_spaces (ws s : str) :
  Forall (fun c => isspace c = true) ws -> lstrip (ws ++ s) = lstrip s.
Proof.
  induction 1 as [|c ws Hc _ IH]; simpl; [reflexivity|]. now rewrite Hc.
Qed.

Lemma lstrip_nonspace (c : char) (s : str) :
  isspace c = false -> lstrip (c :: s) = c :: s.
Proof. intros H. simpl. now rewrite H. Qed.

Lemma rstrip_spaces (s ws : str) :
  Forall (fun c => isspace c = true) ws -> rstrip (s ++ ws) = rstrip s.
Proof.
  intros H. unfold rstrip. rewrite rev_app_distr.
  rewrite lstrip_spaces by (apply Forall_rev; assumption). reflexivity.
Qed.

Lemma rstrip_nonspace (s : str) (c : char) :
  isspace c = false -> rstrip (s ++ [c]) = s ++ [c].
Proof.
  intros H. unfold rstrip. rewrite rev_app_distr. simpl rev at 2. simpl app.
  rewrite lstrip_nonspace by assumption.
  simpl rev. now rewrite rev_involutive.
Qed.

Lemma lstrip_decompose (s : str) :
  exists ws, s = ws ++ lstrip s /\ Forall (fun c => isspace c = true) ws.
Proof.
  induction s as [|c s (ws & E & F)]; simpl.
  - now exists [].
  - destruct (isspace c) eqn:Hc.
    + exists (c :: ws). split; [simpl; now f_equal|now constructor].
    + now exists [].
Qed.


(** Stripping removes the padding around a text that neither starts nor ends
    with white space, and nothing else. *)
Lemma strip_padded (ws1 ws2 mid : str) (first last : char) :
  Forall (fun c => isspace c = true) ws1 ->
  Forall (fun c => isspace c = true) ws2 ->
  isspace first = false -> isspace last = false ->
  strip (ws1 ++ (first :: mid ++ [last]) ++ ws2) = first :: mid ++ [last].
Proof.
  intros H1 H2 Hf Hl. unfold strip.
  rewrite lstrip_spaces by assumption.
  change ((first :: mid ++ [last]) ++ ws2) with (first :: (mid ++ [last]) ++ ws2).
  rewrite lstrip_nonspace by assumption.
  change (first :: (mid ++ [last]) ++ ws2) with ((first :: mid ++ [last]) ++ ws2).
  rewrite rstrip_spaces by assumption.
  change (first :: mid ++ [last]) with ((first :: mid) ++ [last]).
  now apply rstrip_nonspace.
Qed.

(* ================================================================= *)
(** * The decoder always has enough fuel *)

Lemma skip_ws_length (s : str) : (List.length (skip_ws s) <= List.length s)%nat.
Proof.
  induction s as [|c s IH]; simpl; [lia|].
  destruct (is_json_ws c); simpl; lia.
Qed.

Lemma skip_ws_cons_length (s s' : str) (c : char) :
  skip_ws s = c :: s' -> (List.length s' < List.length s)%nat.
Proof.
  intros H. pose proof (skip_ws_length s) as L. rewrite H in L. simpl in L. lia.
Qed.

(** A successful [scanstring] consumes at least the closing quote. *)
Lemma scanstring_length (n : nat) :
  forall s acc k r, (List.length s <= n)%nat ->
    scanstring s acc = Scanned k r -> (List.length r < List.length s)%nat.
Proof.
  induction n as [|n IH]; intros s acc k r Hn H.
  - destruct s; [discriminate|simpl in Hn; lia].
  - destruct s as [|c s1]; [discriminate|].
    cbn [scanstring] in H.
    destruct (c =? dquote)%N. { inversion H; subst; simpl; lia. }
    destruct (c =? ord "\")%N.
    2:{ destruct (c <? 32)%N; [discriminate|]. apply IH in H; simpl in *; lia. }
    destruct s1 as [|e s2]; [discriminate|].
    destruct (e =? ord "u")%N.
    2:{ destruct (backslash e); [|discriminate]. apply IH in H; simpl in *; lia. }
    destruct s2 as [|h1 [|h2 [|h3 [|h4 s3]]]]; try discriminate.
    destruct (hex4 h1 h2 h3 h4) as [uni|]; [|discriminate].
    assert (Hrec : scanstring s3 (uni :: acc) = Scanned k r ->
                   (List.length r < List.length s3)%nat).
    { intros E. apply IH in E; simpl in *; lia. }
    set (t := scanstring s3 (uni :: acc)) in *. clearbody t.
    assert (Hlen : (List.length r < List.length s3)%nat);
      [|simpl; lia].
    destruct (is_high_surrogate uni); [|auto].
    destruct s3 as [|b [|u [|g1 [|g2 [|g3 [|g4 s4]]]]]]; auto.
    destruct ((b =? ord "\") && (u =? ord "u"))%N; [|auto].
    destruct (hex4 g1 g2 g3 g4) as [uni2|]; [|discriminate].
    destruct (is_low_surrogate uni2); [|auto].
    apply IH in H; simpl in *; lia.
Qed.

Lemma scanstring_fuel (n : nat) :
  forall s acc, (List.length s <= n)%nat -> scanstring s acc <> OutOfFuel.
Proof.
  induction n as [|n IH]; intros s acc Hn.
  - destruct s; [discriminate|simpl in Hn; lia].
  - destruct s as [|c s1]; [discriminate|].
    cbn [scanstring].
    destruct (c =? dquote)%N; [discriminate|].
    destruct (c =? ord "\")%N.
    2:{ destruct (c <? 32)%N; [discriminate|]. apply IH; simpl in *; lia. }
    destruct s1 as [|e s2]; [discriminate|].
    destruct (e =? ord "u")%N.
    2:{ destruct (backslash e); [|discriminate]. apply IH; simpl in *; lia. }
    destruct s2 as [|h1 [|h2 [|h3 [|h4 s3]]]]; try discriminate.
    destruct (hex4 h1 h2 h3 h4) as [uni|]; [|discriminate].
    assert (Hrec : scanstring s3 (uni :: acc) <> OutOfFuel).
    { apply IH; simpl in *; lia. }
    set (t := scanstring s3 (uni :: acc)) in *. clearbody t.
    destruct (is_high_surrogate uni); [|auto].
    destruct s3 as [|b [|u [|g1 [|g2 [|g3 [|g4 s4]]]]]]; auto.
    destruct ((b =? ord "\") && (u =? ord "u"))%N; [|auto].
    destruct (hex4 g1 g2 g3 g4) as [uni2|]; [|discriminate].
    destruct (is_low_surrogate uni2); [|auto].
    apply IH; simpl in *; lia.
Qed.

Lemma scan_digits_length (s : str) :
  forall acc count,
    (List.length (snd (scan_digits s acc count)) <= List.length s)%nat.
Proof.
  induction s as [|c s IH]; intros acc count; simpl; [lia|].
  destruct (is_digit c); simpl; [|lia].
  specialize (IH (acc * 10 + (c - 48))%N (S count)). lia.
Qed.

Lemma scan_frac_length (s r : str) (m : N) (k : nat) :
  scan_frac s = Some (m, k, r) -> (List.length r <= List.length s)%nat.
Proof.
  destruct s as [|c s]; simpl; [discriminate|].
  destruct (c =? ord ".")%N; [|discriminate].
  pose proof (scan_digits_length s 0 0) as L.
  destruct (scan_digits s 0 0) as [[m' k'] r']. simpl in L.
  destruct k'; [discriminate|]. intros H. inversion H; subst. lia.
Qed.

Lemma scan_exp_length (s r : str) (x : Z) :
  scan_exp s = Some (x, r) -> (List.length r <= List.length s)%nat.
Proof.
  destruct s as [|c s]; simpl; [discriminate|].
  destruct ((c =? ord "e") || (c =? ord "E"))%N; [|discriminate].
  destruct s as [|sg s2].
  - simpl. discriminate.
  - destruct (sg =? ord "-")%N; [|destruct (sg =? ord "+")%N].
    + pose proof (scan_digits_length s2 0 0) as L.
      destruct (scan_digits s2 0 0) as [[m' k'] r']. simpl in L.
      destruct k'; [discriminate|]. intros H. inversion H; subst. simpl. lia.
    + pose proof (scan_digits_length s2 0 0) as L.
      destruct (scan_digits s2 0 0) as [[m' k'] r']. simpl in L.
      destruct k'; [discriminate|]. intros H. inversion H; subst. simpl. lia.
    + pose proof (scan_digits_length (sg :: s2) 0 0) as L.
      destruct (scan_digits (sg :: s2) 0 0) as [[m' k'] r']. simpl in L.
      destruct k'; [discriminate|]. intros H. inversion H; subst. simpl. lia.
Qed.

(** A number consumes at least one digit. *)
Lemma scan_number_length (s r : str) neg m e f :
  scan_number s = Some (neg, m, e, f, r) -> (List.length r < List.length s)%nat.
Proof.
  unfold scan_number.
  set (p := match s with
            | c :: s' => if (c =? ord "-")%N then (true, s') else (false, s)
            | [] => (false, s)
            end).
  assert (Hp : (List.length (snd p) <= List.length s)%nat).
  { subst p. destruct s as [|c s']; simpl; [lia|].
    destruct (c =? ord "-")%N; simpl; lia. }
  destruct p as [neg' s0]. simpl in Hp.
  destruct s0 as [|c s1]; [discriminate|].
  destruct (is_digit c); [|discriminate].
  set (q := if (c =? ord "0")%N then (0%N, 1%nat, s1)
            else scan_digits s1 (c - 48)%N 1).
  assert (Hq : (List.length (snd q) <= List.length s1)%nat).
  { subst q. destruct (c =? ord "0")%N; simpl; [lia|].
    apply scan_digits_length. }
  destruct q as [[int k] s2]. simpl in Hq.
  destruct (scan_frac s2) as [[[frac nfrac] s3]|] eqn:Ef.
  - apply scan_frac_length in Ef.
    destruct (scan_exp s3) as [[x rest]|] eqn:Ex.
    + apply scan_exp_length in Ex. intros H. inversion H; subst. simpl in *. lia.
    + intros H. inversion H; subst. simpl in *. lia.
  - destruct (scan_exp s2) as [[x rest]|] eqn:Ex.
    + apply scan_exp_length in Ex. intros H. inversion H; subst. simpl in *. lia.
    + intros H. inversion H; subst. simpl in *. lia.
Qed.

Lemma match_number_length (s r : str) (v : pyval) :
  match_number s = Scanned v r -> (List.length r < List.length s)%nat.
Proof.
  unfold match_number.
  destruct (scan_number s) as [[[[[neg m] e] f] rest]|] eqn:E; [|discriminate].
  apply scan_number_length in E.
  destruct f; intros H; inversion H; subst; assumption.
Qed.

Lemma match_number_fuel (s : str) : match_number s <> OutOfFuel.
Proof.
  unfold match_number.
  destruct (scan_number s) as [[[[[neg m] e] [|]] rest]|]; discriminate.
Qed.

Lemma strip_prefix_length (p s r : str) :
  strip_prefix p s = Some r ->
  List.length s = (List.length p + List.length r)%nat.
Proof.
  intros H. apply strip_prefix_Some in H. subst. apply length_app.
Qed.

Lemma scan_constant_length (s r : str) (v : pyval) :
  scan_constant s = Scanned v r -> (List.length r < List.length s)%nat.
Proof.
  unfold scan_constant.
  repeat match goal with
         | |- context [strip_prefix (lit ?k) s] =>
             let E := fresh "E" in
             destruct (strip_prefix (lit k) s) eqn:E;
             [apply strip_prefix_length in E; simpl in E;
              intros H; inversion H; subst; lia|]
         end.
  apply match_number_length.
Qed.

Lemma scan_constant_fuel (s : str) : scan_constant s <> OutOfFuel.
Proof.
  unfold scan_constant.
  repeat match goal with
         | |- context [strip_prefix (lit ?k) s] =>
             destruct (strip_prefix (lit k) s); [discriminate|]
         end.
  apply match_number_fuel.
Qed.

(** A scan that ended in [DecodeError] satisfies [scan_ok]. *)
Ltac failed_scan := split; [discriminate | intros; discriminate].

Lemma scan_fuel (fuel : nat) :
  (forall s, (2 * List.length s < fuel)%nat -> scan_ok s (scan_once fuel s)) /\
  (forall s d, (2 * List.length s < fuel)%nat ->
               scan_ok s (object_members fuel s d)) /\
  (forall s acc, (2 * List.length s + 1 < fuel)%nat ->
                 scan_ok s (array_items fuel s acc)).
Proof.
  induction fuel as [|fuel (IHv & IHo & IHa)].
  - repeat split; intros; lia.
  - repeat apply conj.
    + intros s Hf. destruct s as [|c s']; [failed_scan|].
      cbn [scan_once].
      destruct (c =? dquote)%N.
      { pose proof (@scanstring_fuel (List.length s') s' [] (le_n _)) as F.
        destruct (scanstring s' []) as [k rest| |] eqn:E; [|failed_scan|contradiction].
        apply (@scanstring_length (List.length s')) in E; [|lia].
        split; [discriminate|]. intros v r H. inversion H; subst. simpl. lia. }
      destruct (c =? ord "{")%N.
      { destruct (skip_ws s') as [|c1 s1] eqn:W; [failed_scan|].
        pose proof (skip_ws_length s') as L. rewrite W in L.
        destruct (c1 =? ord "}")%N.
        - split; [discriminate|]. intros v r H. inversion H; subst. simpl in *. lia.
        - destruct (IHo (c1 :: s1) []) as [F R]; [simpl in *; lia|].
          split; [assumption|]. intros v r H. apply R in H. simpl in *. lia. }
      destruct (c =? ord "[")%N.
      { destruct (skip_ws s') as [|c1 s1] eqn:W; [failed_scan|].
        pose proof (skip_ws_length s') as L. rewrite W in L.
        destruct (c1 =? ord "]")%N.
        - split; [discriminate|]. intros v r H. inversion H; subst. simpl in *. lia.
        - destruct (IHa (c1 :: s1) []) as [F R]; [simpl in *; lia|].
          split; [assumption|]. intros v r H. apply R in H. simpl in *. lia. }
      split; [apply scan_constant_fuel|]. intros v r H.
      now apply scan_constant_length in H.
    + intros s d Hf. cbn [object_members].
      destruct s as [|q s1]; [failed_scan|].
      destruct (q =? dquote)%N; [|failed_scan].
      pose proof (@scanstring_fuel (List.length s1) s1 [] (le_n _)) as F.
      destruct (scanstring s1 []) as [key s2| |] eqn:E; [|failed_scan|contradiction].
      apply (@scanstring_length (List.length s1)) in E; [|lia].
      destruct (skip_ws s2) as [|colon s3] eqn:W2; [failed_scan|].
      apply skip_ws_cons_length in W2.
      destruct (colon =? ord ":")%N; [|failed_scan].
      pose proof (skip_ws_length s3) as L3.
      destruct (IHv (skip_ws s3)) as [Fv Rv]; [simpl in *; lia|].
      destruct (scan_once fuel (skip_ws s3)) as [v s4| |] eqn:Ev; [|failed_scan|contradiction].
      specialize (Rv _ _ eq_refl).
      destruct (skip_ws s4) as [|c s5] eqn:W4; [failed_scan|].
      apply skip_ws_cons_length in W4.
      destruct (c =? ord "}")%N.
      { split; [discriminate|]. intros v' r H. inversion H; subst. simpl in *. lia. }
      destruct (c =? ord ",")%N; [|failed_scan].
      pose proof (skip_ws_length s5) as L5.
      destruct (IHo (skip_ws s5) (dict_set d key v)) as [Fo Ro]; [simpl in *; lia|].
      split; [assumption|]. intros v' r H. apply Ro in H. simpl in *. lia.
    + intros s acc Hf. cbn [array_items].
      destruct (IHv s) as [Fv Rv]; [lia|].
      destruct (scan_once fuel s) as [v s1| |] eqn:Ev; [|failed_scan|contradiction].
      specialize (Rv _ _ eq_refl).
      destruct (skip_ws s1) as [|c s2] eqn:W1; [failed_scan|].
      apply skip_ws_cons_length in W1.
      destruct (c =? ord "]")%N.
      { split; [discriminate|]. intros v' r H. inversion H; subst. simpl in *. lia. }
      destruct (c =? ord ",")%N; [|failed_scan].
      pose proof (skip_ws_length s2) as L2.
      destruct (IHa (skip_ws s2) (v :: acc)) as [Fa Ra]; [simpl in *; lia|].
      split; [assumption|]. intros v' r H. apply Ra in H. simpl in *. lia.
Qed.

(** [json_loads] never runs out of fuel: its [RaisesJSONDecodeError] always
    comes from the decoder. *)
Lemma scan_once_fuel (s : str) :
  scan_once (2 * S (List.length s)) (skip_ws s) <> OutOfFuel.
Proof.
  pose proof (skip_ws_length s) as L.
  apply (proj1 (scan_fuel (2 * S (List.length s)))). lia.
Qed.

(** When [json_loads] raises, the scanner found no value (a leading byte
    order mark is such a case) or data follows the value: never a lack of
    fuel. *)
Lemma json_loads_raises (s : str) :
  json_loads s = RaisesJSONDecodeError ->
  scan_once (2 * S (List.length s)) (skip_ws s) = DecodeError
  \/ (exists v rest c more,
        scan_once (2 * S (List.length s)) (skip_ws s) = Scanned v rest
        /\ skip_ws rest = c :: more).
Proof.
  intros H. pose proof (scan_once_fuel s) as F.
  assert (E : json_loads s
              = match scan_once (2 * S (List.length s)) (skip_ws s) with
                | Scanned v rest =>
                    match skip_ws rest with
                    | [] => Loaded v
                    | _ :: _ => RaisesJSONDecodeError
                    end
                | DecodeError => RaisesJSONDecodeError
                | OutOfFuel => RaisesJSONDecodeError
                end).
  { unfold json_loads. destruct s as [|c s']; [reflexivity|].
    destruct c as [|p]; [reflexivity|].
    do 16 (destruct p as [p|p|]; try reflexivity). }
  rewrite E in H.
  destruct (scan_once (2 * S (List.length s)) (skip_ws s)) as [v rest| |];
    [|now left|contradiction].
  destruct (skip_ws rest) as [|c more] eqn:W; [discriminate|].
  right. now exists v, rest, c, more.
Qed.

(* ================================================================= *)
(** * The decoder and [strip] on sample texts

    Each result is the one CPython 3.11 computes. *)

Example loads_object :
  json_loads (json_lit "{'a': 1, 'b': [true, null], 'a': 2.5}")
  = Loaded (PDict [ (lit "a", PFloat (S754_finite false 5629499534213120 (-51)));
                    (lit "b", PList [PBool true; PNone]) ]).
Proof. vm_compute. reflexivity. Qed.

Example loads_surrogate_pair :
  json_loads (json_lit "'\ud83d\ude00'") = Loaded (PStr [128512%N]).
Proof. vm_compute. reflexivity. Qed.

Example loads_lone_surrogate :
  json_loads (json_lit "'\ud800'") = Loaded (PStr [55296%N]).
Proof. vm_compute. reflexivity. Qed.

Example loads_constants :
  json_loads (lit "NaN") = Loaded (PFloat S754_nan)
  /\ json_loads (lit "-Infinity") = Loaded (PFloat (S754_infinity true))
  /\ json_loads (lit "1e400") = Loaded (PFloat (S754_infinity false)).
Proof. repeat split; vm_compute; reflexivity. Qed.

Example loads_numbers :
  json_loads (lit "-0") = Loaded (PInt 0)
  /\ json_loads (lit "-0.0") = Loaded (PFloat (S754_zero true))
  /\ json_loads (lit "1E5")
     = Loaded (PFloat (S754_finite false 6871947673600000 (-36)))
  /\ json_loads (lit "0.1")
     = Loaded (PFloat (S754_finite false 7205759403792794 (-56))).
Proof. repeat split; vm_compute; reflexivity. Qed.

Example loads_rejects :
  json_loads (lit "[1,]") = RaisesJSONDecodeError
  /\ json_loads (lit "01") = RaisesJSONDecodeError
  /\ json_loads (json_lit "{'a':1,}") = RaisesJSONDecodeError
  /\ json_loads [dquote; 9%N; dquote] = RaisesJSONDecodeError
  /\ json_loads (65279%N :: lit "{}") = RaisesJSONDecodeError
  /\ json_loads (11%N :: lit "{}") = RaisesJSONDecodeError.
Proof. repeat split; vm_compute; reflexivity. Qed.

(** [strip] removes more than the decoder skips: a vertical tab and a
    no-break space are white space for [str.isspace], not for JSON. *)
Example strip_unicode_space :
  strip ([11%N; 32%N] ++ lit "{}" ++ [160%N; 8195%N; 10%N]) = lit "{}".
Proof. vm_compute. reflexivity. Qed.

(* ================================================================= *)
(** * Floats: integers that convert exactly *)

Lemma digits2_pos_iter_xO (p k : positive) :
  digits2_pos (Pos.iter xO p k) = (digits2_pos p + k)%positive.
Proof.
  induction k as [|k IH] using Pos.peano_ind.
  - simpl. lia.
  - rewrite Pos.iter_succ. simpl. rewrite IH. lia.
Qed.

Lemma iter_xO_value (p k : positive) :
  Z.pos (Pos.iter xO p k) = Z.pos p * 2 ^ Z.pos k.
Proof.
  induction k as [|k IH] using Pos.peano_ind.
  - simpl Pos.iter. lia.
  - rewrite Pos.iter_succ, Pos2Z.inj_xO, IH, Pos2Z.inj_succ, Z.pow_succ_r by lia.
    lia.
Qed.

(** Rounding a mantissa of exactly 53 bits within the exponent range changes
    nothing. *)
Lemma binary_round_aux_exact (s : bool) (m : positive) (e : Z) :
  Z.pos (digits2_pos m) = 53 -> -1074 <= e <= 971 ->
  binary_round_aux prec emax s (Z.pos m) e loc_Exact = S754_finite s m e.
Proof.
  intros Hd He. unfold binary_round_aux, shr_fexp.
  cbn [Zdigits2 shr_record_of_loc]. rewrite Hd.
  assert (F : fexp prec emax (53 + e) - e = 0)
    by (unfold fexp, SpecFloat.emin, prec, emax; lia).
  rewrite F. cbn [shr shr_m loc_of_shr_record round_nearest_even Zdigits2
                  shr_record_of_loc].
  rewrite Hd, F. cbn [shr shr_m].
  replace (e <=? emax - prec) with true; [reflexivity|].
  symmetry. apply Z.leb_le. unfold emax, prec. lia.
Qed.

Lemma digits2_pos_size (p : positive) : digits2_pos p = Pos.size p.
Proof.
  induction p as [q IH|q IH|]; cbn [digits2_pos Pos.size];
    rewrite ?IH; reflexivity.
Qed.

Lemma digits2_pos_bound (p : positive) :
  Z.pos p < 2 ^ 53 -> Z.pos (digits2_pos p) <= 53.
Proof.
  intros H. rewrite digits2_pos_size.
  destruct (Z.le_gt_cases (Z.pos (Pos.size p)) 53) as [L|G]; [exact L|].
  exfalso. pose proof (Pos.size_le p) as Q.
  assert (Q' : Z.pos (2 ^ Pos.size p) <= Z.pos p~0)
    by (apply Pos2Z.pos_le_pos, Q).
  rewrite Pos2Z.inj_pow in Q'.
  assert (2 ^ 54 <= 2 ^ Z.pos (Pos.size p)) by (apply Z.pow_le_mono_r; lia).
  lia.
Qed.

(** Integers below [2^53] in magnitude convert to a float of their own value. *)
Lemma binary_round_small (s : bool) (p : positive) :
  Z.pos p < 2 ^ 53 ->
  exists m e, binary_round prec emax s p 0 = S754_finite s m e
              /\ float_integer_value (S754_finite s m e)
                 = Some (cond_Zopp s (Z.pos p)).
Proof.
  intros H. apply digits2_pos_bound in H.
  unfold binary_round, shl_align.
  assert (F : fexp prec emax (Z.pos (digits2_pos p) + 0) - 0
              = Z.pos (digits2_pos p) - 53)
    by (unfold fexp, SpecFloat.emin, prec, emax; lia).
  rewrite F.
  destruct (Z.pos (digits2_pos p) - 53) as [|k|k] eqn:K; [|lia|].
  - exists p, 0. rewrite binary_round_aux_exact by lia.
    split; [reflexivity|]. simpl. f_equal. f_equal. lia.
  - assert (F' : fexp prec emax (Z.pos (digits2_pos p) + 0) = Z.neg k)
      by lia.
    rewrite F'.
    exists (Pos.iter xO p k), (Z.neg k).
    rewrite binary_round_aux_exact.
    + split; [reflexivity|]. cbn [float_integer_value].
      rewrite iter_xO_value, Z.mod_mul, Z.div_mul by lia. reflexivity.
    + rewrite digits2_pos_iter_xO. lia.
    + lia.
Qed.

(** Every integer of magnitude at most [2^53] is exactly representable. *)
Lemma float_of_int_exact (z : Z) :
  Z.abs z <= 2 ^ 53 -> exactly_representable (PInt z).
Proof.
  intros H. unfold exactly_representable, float_of_int.
  destruct (Z.eq_dec (Z.abs z) (2 ^ 53)) as [E|E].
  - destruct z as [|p|p]; [discriminate E| |];
      simpl in E; injection E as ->; vm_compute; reflexivity.
  - destruct z as [|p|p]; [reflexivity| |]; cbn [binary_normalize].
    + destruct (@binary_round_small false p) as (m & e & -> & V); [simpl in *; lia|].
      exact V.
    + destruct (@binary_round_small true p) as (m & e & -> & V); [simpl in *; lia|].
      exact V.
Qed.

(* ================================================================= *)
(** * Dictionaries *)

Lemma dict_get_set_same (d : dict) (k : str) (v : pyval) :
  dict_get (dict_set d k v) k = Some v.
Proof.
  induction d as [|[k' v'] d IH]; simpl.
  - now rewrite str_eqb_refl.
  - destruct (str_eqb k' k) eqn:E; simpl; rewrite E; auto.
Qed.



(* ================================================================= *)
(** * The prompt *)

Lemma build_llm_prompt_shape (plot : str) :
  build_llm_prompt plot = prompt_head ++ plot ++ prompt_tail.
Proof. reflexivity. Qed.

(** C2: for every plot, the empty one included, [build_llm_prompt] returns a
    string: the fixed head, the plot verbatim, the fixed tail.  The plot occurs
    in the result, and each of the four keys [movie_name], [release_date],
    [rationale] and [confidence] occurs in the instructions after the plot,
    whatever the plot is. *)
Theorem build_llm_prompt_contains_plot_and_keys (plot : str) :
  build_llm_prompt plot = prompt_head ++ plot ++ prompt_tail /\
  contains plot (build_llm_prompt plot) = true /\
  Forall (fun key => contains key prompt_tail = true
                     /\ contains key (build_llm_prompt plot) = true)
         field_names.
Proof.
  split; [apply build_llm_prompt_shape|]. split.
  - rewrite build_llm_prompt_shape. apply contains_app.
  - assert (T : Forall (fun key => contains key prompt_tail = true) field_names)
      by (repeat constructor).
    apply Forall_impl with (2 := T). intros key Hk. split; [assumption|].
    apply contains_split in Hk. destruct Hk as (a & b & Hk).
    rewrite build_llm_prompt_shape, Hk.
    replace (prompt_head ++ plot ++ a ++ key ++ b)
      with ((prompt_head ++ plot ++ a) ++ key ++ b)
      by (now rewrite <- !app_assoc).
    apply contains_app.
Qed.

(* ================================================================= *)
(** * The handler *)

Section Properties.

Variable str_as_float : str -> option float.
Variable exc_str : init_error -> str.

Local Abbreviation identify := (identify_movie str_as_float exc_str).
Local Abbreviation new_response := (IdentifyResponse_new str_as_float).
Local Abbreviation validate := (IdentifyResponse_validate str_as_float).
Local Abbreviation rejected := (offending str_as_float).

(** ** The stages of the handler *)

Lemma identify_world (req : IdentifyRequest) (w : openai) :
  snd (identify req w) = after_call req w.
Proof.
  unfold identify_movie, create, after_call.
  destruct (respond w _ _) as [[[|[[[text|]]] others]]|e];
    cbn [choices message content];
    try reflexivity.
  destruct (json_loads (strip text)) as [result|]; [|reflexivity].
  destruct (new_response result); reflexivity.
Qed.


Lemma identify_on_text (req : IdentifyRequest) (w : openai) (text : str) :
  answers_text req w text ->
  fst (identify req w) =
  match json_loads (strip text) with
  | RaisesJSONDecodeError =>
      Raises (HTTPException 500
        (lit "Failed to parse response as JSON. Raw response was: " ++ strip text))
  | Loaded result =>
      match new_response result with
      | inr exc =>
          Raises (HTTPException 500
            (lit "Response JSON missing required fields or invalid types: "
             ++ exc_str exc))
      | inl response => Returns response
      end
  end.
Proof.
  intros [others H]. unfold upstream_answer in H.
  unfold identify_movie, create. rewrite H. cbn [choices message content].
  destruct (json_loads (strip text)) as [result|]; [|reflexivity].
  destruct (new_response result); reflexivity.
Qed.

(** ** Validation *)

Lemma validate_field_str (data : dict) (name : str) :
  str_eqb name (lit "confidence") = false ->
  match validate_field validate_str data name with
  | inl a => dict_get data name = Some (PStr a) /\ rejected data name = false
  | inr errs => List.map loc errs = [name] /\ rejected data name = true
  end.
Proof.
  intros Hn. unfold validate_field, offending. rewrite Hn.
  destruct (dict_get data name) as [[]|]; simpl; auto.
Qed.

Lemma validate_field_float (data : dict) :
  match validate_field (validate_float str_as_float) data (lit "confidence") with
  | inl f => (exists v, dict_get data (lit "confidence") = Some v
                        /\ validate_float str_as_float v = inl f)
             /\ rejected data (lit "confidence") = false
  | inr errs => List.map loc errs = [lit "confidence"]
                /\ rejected data (lit "confidence") = true
  end.
Proof.
  unfold validate_field, offending. rewrite str_eqb_refl.
  destruct (dict_get data (lit "confidence")) as [v|]; [|simpl; auto].
  destruct (validate_float str_as_float v) as [f|t] eqn:E.
  - split; [now exists v|].
    destruct v; simpl in *; try discriminate; auto.
    + destruct (float_of_int n); [reflexivity|discriminate].
    + destruct (str_as_float s); [reflexivity|discriminate].
  - split; [reflexivity|].
    destruct v; simpl in *; try discriminate; auto.
    + destruct (float_of_int n); [discriminate|reflexivity].
    + destruct (str_as_float s); [discriminate|reflexivity].
Qed.

(** Validation succeeds exactly when no field offends; otherwise its lines name
    the offending fields, in declaration order. *)
Lemma validate_lines (data : dict) :
  match validate data with
  | inl response =>
      List.filter (rejected data) field_names = []
      /\ dict_get data (lit "movie_name") = Some (PStr (movie_name response))
      /\ dict_get data (lit "release_date") = Some (PStr (release_date response))
      /\ dict_get data (lit "rationale") = Some (PStr (rationale response))
      /\ exists v, dict_get data (lit "confidence") = Some v
                   /\ validate_float str_as_float v = inl (confidence response)
  | inr errs => List.map loc errs = List.filter (rejected data) field_names
                /\ errs <> []
  end.
Proof.
  unfold IdentifyResponse_validate.
  pose proof (@validate_field_str data (lit "movie_name") eq_refl) as Hm.
  pose proof (@validate_field_str data (lit "release_date") eq_refl) as Hd.
  pose proof (@validate_field_str data (lit "rationale") eq_refl) as Hr.
  pose proof (validate_field_float data) as Hc.
  unfold field_names. cbn [List.filter].
  destruct (validate_field validate_str data (lit "movie_name")) as [m|em];
  destruct (validate_field validate_str data (lit "release_date")) as [d|ed];
  destruct (validate_field validate_str data (lit "rationale")) as [r|er];
  destruct (validate_field (validate_float str_as_float) data (lit "confidence"))
    as [c|ec];
  destruct Hm as [Hm ->]; destruct Hd as [Hd ->]; destruct Hr as [Hr ->];
  destruct Hc as [Hc ->]; cbn [line_errors app];
  try (split;
       [rewrite ?map_app, ?Hm, ?Hd, ?Hr, ?Hc; reflexivity
       |intros E; apply (f_equal (List.map loc)) in E;
        rewrite ?map_app, ?Hm, ?Hd, ?Hr, ?Hc in E; discriminate]).
  cbn [movie_name release_date rationale confidence]. auto.
Qed.

Lemma validate_ok (data : dict) (a b c : str) (n : pyval) (f : float) :
  dict_get data (lit "movie_name") = Some (PStr a) ->
  dict_get data (lit "release_date") = Some (PStr b) ->
  dict_get data (lit "rationale") = Some (PStr c) ->
  dict_get data (lit "confidence") = Some n ->
  validate_float str_as_float n = inl f ->
  validate data = inl {| movie_name := a; release_date := b; rationale := c;
                         confidence := f |}.
Proof.
  intros Ha Hb Hc Hn Hf. unfold IdentifyResponse_validate, validate_field.
  rewrite Ha, Hb, Hc, Hn. cbn [validate_str]. now rewrite Hf.
Qed.

Lemma exactly_representable_validates (n : pyval) :
  exactly_representable n ->
  exists f, validate_float str_as_float n = inl f /\ same_number n f.
Proof.
  destruct n; simpl; try contradiction.
  - destruct (float_of_int n) as [f|]; [|contradiction]. intros H. now exists f.
  - intros _. now exists f.
Qed.

(** A decoded object whose four fields validate is returned as it is. *)
Lemma identify_valid_object
    (req : IdentifyRequest) (w : openai) (text : str) (d : dict)
    (a b c : str) (n : pyval) (f : float) :
  answers_text req w text ->
  json_loads (strip text) = Loaded (PDict d) ->
  dict_get d (lit "movie_name") = Some (PStr a) ->
  dict_get d (lit "release_date") = Some (PStr b) ->
  dict_get d (lit "rationale") = Some (PStr c) ->
  dict_get d (lit "confidence") = Some n ->
  validate_float str_as_float n = inl f ->
  fst (identify req w)
  = Returns {| movie_name := a; release_date := b; rationale := c;
               confidence := f |}.
Proof.
  intros Hw Hj Ha Hb Hc Hn Hf.
  rewrite (identify_on_text Hw), Hj. cbn [IdentifyResponse_new].
  now rewrite (validate_ok _ Ha Hb Hc Hn Hf).
Qed.

(** ** The claims about the handler *)

(** C1, amended: when the stripped completion text decodes to a JSON object
    whose [movie_name], [release_date] and [rationale] are strings and whose
    [confidence] is a number that a float represents exactly (any float
    literal, or an integer that [float] converts without rounding or
    overflow, as every integer up to [2^53] in magnitude is),
    [identify_movie] returns an [IdentifyResponse] holding these three strings
    and a confidence of the same value, unchanged. *)
Theorem identify_returns_exact_fields
    (req : IdentifyRequest) (w : openai) (text : str) (d : dict)
    (a b c : str) (n : pyval) :
  answers_text req w text ->
  json_loads (strip text) = Loaded (PDict d) ->
  dict_get d (lit "movie_name") = Some (PStr a) ->
  dict_get d (lit "release_date") = Some (PStr b) ->
  dict_get d (lit "rationale") = Some (PStr c) ->
  dict_get d (lit "confidence") = Some n ->
  exactly_representable n ->
  exists f,
    fst (identify req w)
    = Returns {| movie_name := a; release_date := b; rationale := c;
                 confidence := f |}
    /\ same_number n f.
Proof.
  intros Hw Hj Ha Hb Hc Hn Hx.
  destruct (@exactly_representable_validates n Hx) as (f & Hf & Hs).
  exists f. split; [|exact Hs].
  now apply identify_valid_object with (text := text) (d := d) (n := n).
Qed.

(** C3, amended: when the decoded JSON object lacks one of the four fields,
    or gives a value that is not a string for [movie_name], [release_date] or
    [rationale], or gives for [confidence] a value without a conversion to a
    float, [identify_movie] fails with status 500; the detail carries the
    message of the validation error, whose lines name exactly the offending
    fields. *)
Theorem identify_rejects_offending_fields
    (req : IdentifyRequest) (w : openai) (text : str) (d : dict) :
  answers_text req w text ->
  json_loads (strip text) = Loaded (PDict d) ->
  (exists name, In name field_names /\ rejected d name = true) ->
  exists errs,
    fst (identify req w)
    = Raises (HTTPException 500
        (lit "Response JSON missing required fields or invalid types: "
         ++ exc_str (ValidationError errs)))
    /\ errs <> []
    /\ List.map loc errs = List.filter (rejected d) field_names
    /\ contains (exc_str (ValidationError errs))
         (lit "Response JSON missing required fields or invalid types: "
          ++ exc_str (ValidationError errs)) = true.
Proof.
  intros Hw Hj (name & Hin & Hrej).
  rewrite (identify_on_text Hw), Hj. cbn [IdentifyResponse_new].
  pose proof (validate_lines d) as V.
  destruct (validate d) as [response|errs].
  - destruct V as [V _].
    assert (In name (List.filter (rejected d) field_names))
      by (apply filter_In; now split).
    rewrite V in H. contradiction.
  - destruct V as [V1 V2]. exists errs. repeat split; auto.
    rewrite <- (app_nil_r (exc_str (ValidationError errs))) at 2.
    apply contains_app.
Qed.


(** C5: when the call to the service raises an exception, [identify_movie]
    fails with status 500 and a detail that contains the message of that
    exception; the service has been called exactly once; and the outcome is
    the same whatever the string conversion and the rendering of validation
    errors are, since decoding and validation are not reached. *)
Theorem identify_upstream_error
    (req : IdentifyRequest) (w : openai) (e : str) :
  upstream_answer req w = Fails e ->
  identify req w
  = (Raises (HTTPException 500 (lit "OpenAI API error: " ++ e)),
     after_call req w)
  /\ contains e (lit "OpenAI API error: " ++ e) = true
  /\ List.length (calls (snd (identify req w))) = S (List.length (calls w))
  /\ forall str_as_float' exc_str',
       identify_movie str_as_float' exc_str' req w = identify req w.
Proof.
  intros H.
  assert (E : forall saf es,
             identify_movie saf es req w
             = (Raises (HTTPException 500 (lit "OpenAI API error: " ++ e)),
                after_call req w)).
  { intros saf es. unfold upstream_answer in H.
    unfold identify_movie, create, after_call. now rewrite H. }
  repeat split.
  - apply E.
  - rewrite <- (app_nil_r e) at 2. apply contains_app.
  - rewrite E. cbn [snd after_call calls]. rewrite length_app. simpl. lia.
  - intros saf es. now rewrite !E.
Qed.


(** C7: the handler reads the text of the first choice and strips it before
    decoding: when that text is a JSON object (from its opening to its
    closing brace) with any white space before and after it, the stripped
    text is the object itself, decoding succeeds and the handler goes on to
    validation. *)
Theorem identify_strips_before_decoding
    (req : IdentifyRequest) (w : openai) (ws1 ws2 inner : str) (result : pyval) :
  answers_text req w (ws1 ++ (ord "{" :: inner ++ [ord "}"]) ++ ws2) ->
  Forall (fun c => isspace c = true) ws1 ->
  Forall (fun c => isspace c = true) ws2 ->
  json_loads (ord "{" :: inner ++ [ord "}"]) = Loaded result ->
  strip (ws1 ++ (ord "{" :: inner ++ [ord "}"]) ++ ws2)
  = ord "{" :: inner ++ [ord "}"]
  /\ fst (identify req w)
     = match new_response result with
       | inl response => Returns response
       | inr exc =>
           Raises (HTTPException 500
             (lit "Response JSON missing required fields or invalid types: "
              ++ exc_str exc))
       end.
Proof.
  intros Hw H1 H2 Hj.
  assert (S : strip (ws1 ++ (ord "{" :: inner ++ [ord "}"]) ++ ws2)
              = ord "{" :: inner ++ [ord "}"])
    by (apply strip_padded; auto).
  split; [exact S|].
  rewrite (identify_on_text Hw), S, Hj.
  destruct (new_response result); reflexivity.
Qed.



(** C10: when the stripped completion text is valid JSON but not an object
    (an array, a string, a number, a constant), decoding succeeds and the
    failure comes from validation: [identify_movie] fails with status 500 and
    the detail of a validation failure, the [TypeError] of the call, which is
    not the detail of a malformed response. *)
Theorem identify_rejects_non_object
    (req : IdentifyRequest) (w : openai) (text : str) (result : pyval) :
  answers_text req w text ->
  json_loads (strip text) = Loaded result ->
  (forall d, result <> PDict d) ->
  new_response result = inr (TypeError result)
  /\ fst (identify req w)
     = Raises (HTTPException 500
         (lit "Response JSON missing required fields or invalid types: "
          ++ exc_str (TypeError result)))
  /\ fst (identify req w)
     <> Raises (HTTPException 500
          (lit "Failed to parse response as JSON. Raw response was: "
           ++ strip text)).
Proof.
  intros Hw Hj Hd.
  assert (V : new_response result = inr (TypeError result)).
  { destruct result; try reflexivity. now destruct (Hd d). }
  split; [exact V|].
  rewrite (identify_on_text Hw), Hj, V. split; [reflexivity|discriminate].
Qed.

End Properties.

(* ================================================================= *)
(** * The handler on concrete completions *)

Local Abbreviation run := (identify_movie decimal_str_as_float plain_exc_str).

(** The stubbed completion of the specification: the four values come back. *)
Lemma identify_returns_exact_fields_witness :
  exists f,
    fst (run heist (stub_completion inception_text))
    = Returns {| movie_name := lit "Inception"; release_date := lit "2010-07-16";
                 rationale := lit "dream heist"; confidence := f |}
    /\ same_number (PFloat (float_of_decimal false 87 (-2))) f.
Proof.
  apply (@identify_returns_exact_fields decimal_str_as_float plain_exc_str
           heist (stub_completion inception_text) inception_text inception_dict).
  - exists []. reflexivity.
  - vm_compute. reflexivity.
  - reflexivity.
  - reflexivity.
  - reflexivity.
  - reflexivity.
  - exact I.
Defined.

(** C1 as stated fails on an integer confidence that no float represents:
    [9007199254740993] is a number, the handler returns, and the confidence
    it returns is [9007199254740992.0]. *)
Lemma identify_integer_confidence_rounded :
  json_loads (strip big_confidence_text)
  = Loaded (PDict [ (lit "movie_name", PStr (lit "A"));
                    (lit "release_date", PStr (lit "B"));
                    (lit "rationale", PStr (lit "C"));
                    (lit "confidence", PInt 9007199254740993) ])
  /\ is_number (PInt 9007199254740993)
  /\ fst (run heist (stub_completion big_confidence_text))
     = Returns {| movie_name := lit "A"; release_date := lit "B";
                  rationale := lit "C";
                  confidence := S754_finite false 4503599627370496 1 |}
  /\ float_integer_value (S754_finite false 4503599627370496 1)
     = Some 9007199254740992
  /\ ~ (exists f,
          fst (run heist (stub_completion big_confidence_text))
          = Returns {| movie_name := lit "A"; release_date := lit "B";
                       rationale := lit "C"; confidence := f |}
          /\ same_number (PInt 9007199254740993) f).
Proof.
  assert (E : fst (run heist (stub_completion big_confidence_text))
              = Returns {| movie_name := lit "A"; release_date := lit "B";
                           rationale := lit "C";
                           confidence := S754_finite false 4503599627370496 1 |})
    by (vm_compute; reflexivity).
  split; [vm_compute; reflexivity|]. split; [exact I|].
  split; [exact E|]. split; [vm_compute; reflexivity|].
  intros (f & Hr & Hs). rewrite E in Hr. inversion Hr; subst f.
  vm_compute in Hs. discriminate.
Qed.

(** A completion without [confidence]: the validation error has one line,
    for that field. *)
Lemma identify_rejects_offending_fields_witness :
  exists errs,
    fst (run heist (stub_completion missing_confidence_text))
    = Raises (HTTPException 500
        (lit "Response JSON missing required fields or invalid types: "
         ++ plain_exc_str (ValidationError errs)))
    /\ errs <> []
    /\ List.map loc errs = [lit "confidence"]
    /\ contains (plain_exc_str (ValidationError errs))
         (lit "Response JSON missing required fields or invalid types: "
          ++ plain_exc_str (ValidationError errs)) = true.
Proof.
  apply (@identify_rejects_offending_fields decimal_str_as_float plain_exc_str
           heist (stub_completion missing_confidence_text)
           missing_confidence_text
           [ (lit "movie_name", PStr (lit "Inception"));
             (lit "release_date", PStr (lit "2010-07-16"));
             (lit "rationale", PStr (lit "dream heist")) ]).
  - exists []. reflexivity.
  - vm_compute. reflexivity.
  - exists (lit "confidence"). split; [simpl; tauto|reflexivity].
Defined.

(** C3 as stated fails on a confidence of another type that pydantic
    converts: here [confidence] is the string ["0.5"], not a number, and the
    handler returns a response with confidence [0.5]. *)
Lemma identify_accepts_quoted_confidence :
  json_loads (strip quoted_confidence_text)
  = Loaded (PDict [ (lit "movie_name", PStr (lit "A"));
                    (lit "release_date", PStr (lit "B"));
                    (lit "rationale", PStr (lit "C"));
                    (lit "confidence", PStr (lit "0.5")) ])
  /\ ~ is_number (PStr (lit "0.5"))
  /\ fst (run heist (stub_completion quoted_confidence_text))
     = Returns {| movie_name := lit "A"; release_date := lit "B";
                  rationale := lit "C";
                  confidence := float_of_decimal false 5 (-1) |}.
Proof.
  split; [vm_compute; reflexivity|]. split; [intros []|].
  vm_compute. reflexivity.
Qed.



(** A service that raises: the message is in the detail, one call was made. *)
Lemma identify_upstream_error_witness :
  run heist (stub_failure (lit "Connection error."))
  = (Raises (HTTPException 500
       (lit "OpenAI API error: " ++ lit "Connection error.")),
     after_call heist (stub_failure (lit "Connection error.")))
  /\ contains (lit "Connection error.")
       (lit "OpenAI API error: " ++ lit "Connection error.") = true
  /\ List.length (calls (snd (run heist (stub_failure (lit "Connection error.")))))
     = S (List.length (calls (stub_failure (lit "Connection error."))))
  /\ forall str_as_float' exc_str',
       identify_movie str_as_float' exc_str' heist
         (stub_failure (lit "Connection error."))
       = run heist (stub_failure (lit "Connection error.")).
Proof.
  apply (@identify_upstream_error decimal_str_as_float plain_exc_str
           heist (stub_failure (lit "Connection error.")) (lit "Connection error.")).
  reflexivity.
Defined.


(** The object of the specification between white space, some of which is
    not JSON white space. *)
Lemma identify_strips_before_decoding_witness :
  strip padded_text = inception_text
  /\ fst (run heist (stub_completion padded_text)) = Returns inception.
Proof.
  apply (@identify_strips_before_decoding decimal_str_as_float plain_exc_str
           heist (stub_completion padded_text)
           [10%N; 32%N; 11%N] [32%N; 160%N; 10%N]
           (json_lit "'movie_name':'Inception','release_date':'2010-07-16','rationale':'dream heist','confidence':0.87")
           (PDict inception_dict)).
  - exists []. reflexivity.
  - repeat constructor.
  - repeat constructor.
  - vm_compute. reflexivity.
Defined.



(** A JSON array: decoded, then refused by the call of [IdentifyResponse]. *)
Lemma identify_rejects_non_object_witness :
  IdentifyResponse_new decimal_str_as_float (PList [PInt 1; PInt 2])
  = inr (TypeError (PList [PInt 1; PInt 2]))
  /\ fst (run heist (stub_completion (lit "[1, 2]")))
     = Raises (HTTPException 500
         (lit "Response JSON missing required fields or invalid types: "
          ++ plain_exc_str (TypeError (PList [PInt 1; PInt 2]))))
  /\ fst (run heist (stub_completion (lit "[1, 2]")))
     <> Raises (HTTPException 500
          (lit "Failed to parse response as JSON. Raw response was: "
           ++ strip (lit "[1, 2]"))).
Proof.
  apply (@identify_rejects_non_object decimal_str_as_float plain_exc_str
           heist (stub_completion (lit "[1, 2]")) (lit "[1, 2]")
           (PList [PInt 1; PInt 2])).
  - exists []. reflexivity.
  - vm_compute. reflexivity.
  - discriminate.
Defined.

(* ================================================================= *)
(** * More about [strip] and the decoder *)

Lemma lstrip_all_spaces (s : str) :
  Forall (fun c => isspace c = true) s -> lstrip s = [].
Proof.
  intros H. rewrite <- (app_nil_r s). now rewrite lstrip_spaces.
Qed.

Lemma strip_all_spaces (s : str) :
  Forall (fun c => isspace c = true) s -> strip s = [].
Proof. intros H. unfold strip. now rewrite lstrip_all_spaces. Qed.

Lemma lstrip_head (s r : str) (c : char) :
  lstrip s = c :: r -> isspace c = false.
Proof.
  induction s as [|x s IH]; simpl; [discriminate|].
  destruct (isspace x) eqn:E; [exact IH|].
  intros H. inversion H; subst. exact E.
Qed.

Lemma lstrip_idem (s : str) : lstrip (lstrip s) = lstrip s.
Proof.
  destruct (lstrip s) as [|c r] eqn:E; [reflexivity|].
  apply lstrip_nonspace. exact (lstrip_head _ E).
Qed.

(** What [lstrip] leaves of a text followed by white space. *)
Lemma lstrip_app_spaces (t ws : str) :
  Forall (fun c => isspace c = true) ws ->
  lstrip (t ++ ws) = match lstrip t with [] => [] | _ :: _ => lstrip t ++ ws end.
Proof.
  intros H. induction t as [|c t IH]; simpl.
  - now apply lstrip_all_spaces.
  - destruct (isspace c); [exact IH|reflexivity].
Qed.

Lemma strip_app_spaces (ws1 t ws2 : str) :
  Forall (fun c => isspace c = true) ws1 ->
  Forall (fun c => isspace c = true) ws2 ->
  strip (ws1 ++ t ++ ws2) = strip t.
Proof.
  intros H1 H2. unfold strip. rewrite lstrip_spaces by assumption.
  rewrite lstrip_app_spaces by assumption.
  destruct (lstrip t) as [|c r]; [reflexivity|].
  now apply rstrip_spaces.
Qed.

Lemma strip_head (s r : str) (c : char) :
  strip s = c :: r -> isspace c = false.
Proof.
  unfold strip. intros H.
  destruct (lstrip s) as [|x l] eqn:E; [discriminate H|].
  pose proof (lstrip_head _ E) as Hx.
  (* rstrip keeps a prefix: the head of [rstrip (x :: l)] is [x] *)
  unfold rstrip in H.
  destruct (lstrip_decompose (rev (x :: l))) as (ws & Ed & Fd).
  assert (Er : x :: l = rev (lstrip (rev (x :: l))) ++ rev ws).
  { rewrite <- rev_app_distr, <- Ed. now rewrite rev_involutive. }
  rewrite H in Er. simpl in Er. inversion Er; subst. exact Hx.
Qed.

Lemma strip_last (s r : str) (c : char) :
  strip s = r ++ [c] -> isspace c = false.
Proof.
  unfold strip, rstrip. intros H.
  apply (f_equal (@rev char)) in H. rewrite rev_involutive, rev_app_distr in H.
  simpl in H. exact (lstrip_head _ H).
Qed.

Lemma strip_idem (s : str) : strip (strip s) = strip s.
Proof.
  destruct (strip s) as [|c r] eqn:E; [reflexivity|].
  destruct (@exists_last _ (c :: r)) as (m & l & El); [discriminate|].
  assert (Hc : isspace c = false) by exact (strip_head _ E).
  assert (Hl : isspace l = false).
  { apply strip_last with (s := s) (r := m). now rewrite E. }
  destruct m as [|c' m'].
  - simpl in El. inversion El; subst.
    unfold strip. rewrite lstrip_nonspace by assumption.
    change [l] with ([] ++ [l]). now apply rstrip_nonspace.
  - simpl in El. inversion El; subst.
    rewrite <- (app_nil_r (c' :: m' ++ [l])) at 1.
    rewrite <- (app_nil_l ((c' :: m' ++ [l]) ++ [])).
    now apply strip_padded.
Qed.

Lemma is_json_ws_isspace (c : char) : is_json_ws c = true -> isspace c = true.
Proof.
  unfold is_json_ws. intros H.
  repeat (apply orb_true_iff in H; destruct H as [H|H]);
    apply N.eqb_eq in H; subst; reflexivity.
Qed.

Lemma json_loads_unfold (s : str) :
  json_loads s
  = match scan_once (2 * S (List.length s)) (skip_ws s) with
    | Scanned v rest =>
        match skip_ws rest with
        | [] => Loaded v
        | _ :: _ => RaisesJSONDecodeError
        end
    | DecodeError => RaisesJSONDecodeError
    | OutOfFuel => RaisesJSONDecodeError
    end.
Proof.
  unfold json_loads. destruct s as [|c s']; [reflexivity|].
  destruct c as [|p]; [reflexivity|].
  do 16 (destruct p as [p|p|]; try reflexivity).
Qed.

(** A text whose first character is neither white space nor the start of a
    JSON value is refused. *)
Lemma json_loads_bad_start (c : char) (rest : str) :
  json_value_start c = false -> isspace c = false ->
  json_loads (c :: rest) = RaisesJSONDecodeError.
Proof.
  intros Hs Hw. rewrite json_loads_unfold.
  assert (Hj : is_json_ws c = false).
  { destruct (is_json_ws c) eqn:E; [|reflexivity].
    apply is_json_ws_isspace in E. congruence. }
  cbn [skip_ws]. rewrite Hj.
  unfold json_value_start in Hs.
  repeat (apply orb_false_iff in Hs; destruct Hs as [Hs ?]).
  replace (2 * S (List.length (c :: rest)))%nat
    with (S (2 * List.length (c :: rest) + 1))%nat by lia.
  cbn [scan_once].
  repeat match goal with H : (c =? _)%N = false |- _ => rewrite H; clear H end.
  unfold scan_constant, lit. cbn [list_ascii_of_string List.map strip_prefix].
  unfold char_eqb.
  repeat match goal with
         | H : (c =? ?k)%N = false |- context [(?k' =? c)%N] =>
             replace (k' =? c)%N with false
               by (symmetry; rewrite N.eqb_sym; exact H)
         end.
  unfold match_number, scan_number.
  repeat match goal with
         | H : (c =? _)%N = false |- _ => rewrite H; clear H
         | H : is_digit c = false |- _ => rewrite H; clear H
         end.
  reflexivity.
Qed.

(* ================================================================= *)
(** * Start-up *)

(** X1: the module starts exactly when [OPENAI_API_KEY] has a non-empty value,
    taken from the environment when the environment defines the name and from
    the [.env] file otherwise; the key it installs is that value. *)
Theorem startup_started (dotenv : option environ) (env : environ) (key : str) :
  startup dotenv env = Started key <->
  key <> []
  /\ (env (lit "OPENAI_API_KEY") = Some key
      \/ (env (lit "OPENAI_API_KEY") = None
          /\ exists file, dotenv = Some file
                          /\ file (lit "OPENAI_API_KEY") = Some key)).
Proof.
  unfold startup, getenv, load_dotenv. split.
  - destruct (env (lit "OPENAI_API_KEY")) as [[|c k]|] eqn:E; try discriminate.
    + intros H. inversion H; subst. split; [discriminate|now left].
    + destruct dotenv as [file|]; [|discriminate].
      destruct (file (lit "OPENAI_API_KEY")) as [[|c k]|] eqn:F; try discriminate.
      intros H. inversion H; subst. split; [discriminate|].
      right. split; [reflexivity|]. now exists file.
  - intros [Hk [E|[E (file & -> & F)]]]; rewrite E.
    + destruct key; [contradiction|reflexivity].
    + rewrite F. destruct key; [contradiction|reflexivity].
Qed.

(** X2: a name that the environment defines with an empty value hides the
    [.env] file: the module refuses to start whatever the file holds. *)
Theorem startup_empty_variable (dotenv : option environ) (env : environ) :
  env (lit "OPENAI_API_KEY") = Some [] ->
  exists msg, startup dotenv env = RaisesRuntimeError msg
              /\ contains (lit "OPENAI_API_KEY is not set") msg = true.
Proof.
  intros E. unfold startup, getenv, load_dotenv. rewrite E.
  eexists. split; [reflexivity|]. reflexivity.
Qed.

(* ================================================================= *)
(** * More about the prompt *)

(** X3: different plots give different prompts. *)
Theorem build_llm_prompt_injective (plot1 plot2 : str) :
  plot1 <> plot2 -> build_llm_prompt plot1 <> build_llm_prompt plot2.
Proof.
  intros N E. apply N. rewrite !build_llm_prompt_shape in E.
  apply app_inv_head in E. now apply app_inv_tail in E.
Qed.

(** X4: the prompt is the plot and 589 further characters: nothing of the plot
    is cut, escaped or repeated. *)
Theorem build_llm_prompt_length (plot : str) :
  List.length (build_llm_prompt plot) = (List.length plot + 589)%nat.
Proof.
  rewrite build_llm_prompt_shape, !length_app.
  change (List.length prompt_head) with 488%nat.
  change (List.length prompt_tail) with 101%nat. lia.
Qed.

(* ================================================================= *)
(** * More about the handler *)

Section Coverage.

Variable str_as_float : str -> option float.
Variable exc_str : init_error -> str.

Local Abbreviation identify := (identify_movie str_as_float exc_str).
Local Abbreviation new_response := (IdentifyResponse_new str_as_float).
Local Abbreviation validate := (IdentifyResponse_validate str_as_float).

Lemma Raises_HTTPException_inj (s s' : Z) (d d' : str) :
  Raises (HTTPException s d) = Raises (HTTPException s' d') -> s = s' /\ d = d'.
Proof. intros H. inversion H. auto. Qed.

(** The outcome as a function of what the service answers. *)
Lemma identify_fst (req : IdentifyRequest) (w : openai) :
  fst (identify req w) =
  match upstream_answer req w with
  | Fails e => Raises (HTTPException 500 (lit "OpenAI API error: " ++ e))
  | Completes completion =>
      match choices completion with
      | [] => Raises IndexError
      | choice :: _ =>
          match content (message choice) with
          | None => Raises AttributeError
          | Some text =>
              match json_loads (strip text) with
              | RaisesJSONDecodeError =>
                  Raises (HTTPException 500
                    (lit "Failed to parse response as JSON. Raw response was: "
                     ++ strip text))
              | Loaded result =>
                  match new_response result with
                  | inr exc =>
                      Raises (HTTPException 500
                        (lit "Response JSON missing required fields or invalid types: "
                         ++ exc_str exc))
                  | inl response => Returns response
                  end
              end
          end
      end
  end.
Proof.
  unfold upstream_answer, identify_movie, create.
  destruct (respond w _ _) as [[[|[[[text|]]] others]]|e];
    cbn [choices message content fst]; try reflexivity.
  destruct (json_loads (strip text)) as [result|]; [|reflexivity].
  destruct (new_response result); reflexivity.
Qed.

(** X5: every run of the handler, whatever its outcome, calls the service
    exactly once, with the prompt of its own request; two runs in a row leave
    their two calls on record in order, and the second is answered as call
    number [n + 1]. *)
Theorem identify_movie_calls_once
    (req1 req2 : IdentifyRequest) (w : openai) :
  calls (snd (identify req1 w))
  = calls w ++ [chat_request (build_llm_prompt (User_query req1))]
  /\ calls (snd (identify req2 (snd (identify req1 w))))
     = calls w ++ [chat_request (build_llm_prompt (User_query req1));
                   chat_request (build_llm_prompt (User_query req2))]
  /\ upstream_answer req2 (snd (identify req1 w))
     = respond w (S (List.length (calls w)))
         (chat_request (build_llm_prompt (User_query req2))).
Proof.
  rewrite !identify_world. unfold after_call, upstream_answer.
  cbn [calls respond]. rewrite <- app_assoc, length_app. cbn [List.length app].
  repeat split. f_equal. lia.
Qed.

(** X6: the outcome is a function of the service's answer alone: two runs that
    get the same answer end alike, whatever the plots, the services and the
    calls made before. *)
Theorem identify_movie_depends_on_answer
    (req1 req2 : IdentifyRequest) (w1 w2 : openai) :
  upstream_answer req1 w1 = upstream_answer req2 w2 ->
  fst (identify req1 w1) = fst (identify req2 w2).
Proof. intros H. rewrite !identify_fst. now rewrite H. Qed.

(** X7: only the first choice of a completion is read. *)
Theorem identify_movie_reads_first_choice
    (req1 req2 : IdentifyRequest) (w1 w2 : openai)
    (first : Choice) (others1 others2 : list Choice) :
  upstream_answer req1 w1 = Completes {| choices := first :: others1 |} ->
  upstream_answer req2 w2 = Completes {| choices := first :: others2 |} ->
  fst (identify req1 w1) = fst (identify req2 w2).
Proof. intros H1 H2. rewrite !identify_fst, H1, H2. reflexivity. Qed.

(** X8: a completion without choices makes the handler raise [IndexError], and
    a first choice without content [AttributeError]; these two exceptions are
    raised in no other case, and they are not [HTTPException]s. *)
Theorem identify_movie_uncaught (req : IdentifyRequest) (w : openai) :
  (fst (identify req w) = Raises IndexError
   <-> upstream_answer req w = Completes {| choices := [] |})
  /\ (fst (identify req w) = Raises AttributeError
      <-> exists others,
            upstream_answer req w
            = Completes {| choices := {| message := {| content := None |} |}
                                      :: others |}).
Proof.
  rewrite identify_fst.
  destruct (upstream_answer req w) as [[[|[[[text|]]] others]]|e];
    cbn [choices message content].
  - split; split; try reflexivity; try discriminate.
    intros (o & H). discriminate.
  - assert (N : forall e,
               match json_loads (strip text) with
               | RaisesJSONDecodeError =>
                   Raises (HTTPException 500
                     (lit "Failed to parse response as JSON. Raw response was: "
                      ++ strip text))
               | Loaded result =>
                   match new_response result with
                   | inr exc =>
                       Raises (HTTPException 500
                         (lit "Response JSON missing required fields or invalid types: "
                          ++ exc_str exc))
                   | inl response => Returns response
                   end
               end = Raises e -> exists s d, e = HTTPException s d).
    { intros e. destruct (json_loads (strip text)) as [result|].
      - destruct (new_response result); [discriminate|].
        intros H. inversion H. eauto.
      - intros H. inversion H. eauto. }
    split; split; intros H.
    + apply N in H. destruct H as (s & d & H). discriminate.
    + discriminate.
    + apply N in H. destruct H as (s & d & H). discriminate.
    + destruct H as (o & H). discriminate.
  - split; split; try discriminate.
    + intros _. now exists others.
    + reflexivity.
  - split; split; try discriminate. intros (o & H). discriminate.
Qed.

(** X9: the handler returns a response exactly when the stripped text of the
    first choice decodes to an object whose [movie_name], [release_date] and
    [rationale] are strings and whose [confidence] validates as a float; the
    three strings of the response are those of the object, verbatim. *)
Theorem identify_movie_returns_iff
    (req : IdentifyRequest) (w : openai) (response : IdentifyResponse) :
  fst (identify req w) = Returns response <->
  exists text d v,
    answers_text req w text
    /\ json_loads (strip text) = Loaded (PDict d)
    /\ dict_get d (lit "movie_name") = Some (PStr (movie_name response))
    /\ dict_get d (lit "release_date") = Some (PStr (release_date response))
    /\ dict_get d (lit "rationale") = Some (PStr (rationale response))
    /\ dict_get d (lit "confidence") = Some v
    /\ validate_float str_as_float v = inl (confidence response).
Proof.
  split.
  - rewrite identify_fst.
    destruct (upstream_answer req w) as [[[|[[[text|]]] others]]|e] eqn:U;
      cbn [choices message content]; try discriminate.
    destruct (json_loads (strip text)) as [result|] eqn:J; [|discriminate].
    destruct result as [| | | | | |d]; try discriminate.
    cbn [IdentifyResponse_new].
    pose proof (validate_lines str_as_float d) as V.
    destruct (validate d) as [r|errs]; [|discriminate].
    intros H. inversion H; subst r.
    destruct V as (_ & Hm & Hd & Hr & v & Hv & Hf).
    exists text, d, v. repeat split; auto. now exists others.
  - intros (text & d & v & Hw & J & Hm & Hd & Hr & Hv & Hf).
    destruct response as [m dt r c]. cbn in *.
    now apply identify_valid_object with (text := text) (d := d) (n := v).
Qed.

(** X10: white space around the text of the completion changes nothing: a run
    that is answered [ws1 ++ text ++ ws2] ends like a run answered [text]. *)
Theorem identify_movie_ignores_padding
    (req1 req2 : IdentifyRequest) (w1 w2 : openai) (ws1 text ws2 : str) :
  answers_text req1 w1 (ws1 ++ text ++ ws2) ->
  answers_text req2 w2 text ->
  Forall (fun c => isspace c = true) ws1 ->
  Forall (fun c => isspace c = true) ws2 ->
  fst (identify req1 w1) = fst (identify req2 w2).
Proof.
  intros H1 H2 F1 F2.
  rewrite (identify_on_text str_as_float exc_str H1).
  rewrite (identify_on_text str_as_float exc_str H2).
  now rewrite strip_app_spaces.
Qed.

(** X11: a completion that is empty or all white space fails as a malformed
    response, with nothing after the fixed part of the detail. *)
Theorem identify_movie_blank_completion
    (req : IdentifyRequest) (w : openai) (text : str) :
  answers_text req w text ->
  Forall (fun c => isspace c = true) text ->
  fst (identify req w)
  = Raises (HTTPException 500
      (lit "Failed to parse response as JSON. Raw response was: ")).
Proof.
  intros H F. rewrite (identify_on_text str_as_float exc_str H).
  rewrite strip_all_spaces by assumption. reflexivity.
Qed.

(** X12: a completion whose first character after stripping cannot start a JSON
    value (prose, a Markdown code fence) fails as a malformed response that
    echoes the stripped text. *)
Theorem identify_movie_bad_start
    (req : IdentifyRequest) (w : openai) (text rest : str) (c : char) :
  answers_text req w text ->
  strip text = c :: rest ->
  json_value_start c = false ->
  fst (identify req w)
  = Raises (HTTPException 500
      (lit "Failed to parse response as JSON. Raw response was: " ++ c :: rest)).
Proof.
  intros H S B. rewrite (identify_on_text str_as_float exc_str H), S.
  rewrite json_loads_bad_start; [reflexivity|assumption|].
  exact (@strip_head _ _ _ S).
Qed.

(** X13: the text echoed in the detail of a malformed response never starts or
    ends with white space, and stripping it again changes nothing. *)
Theorem identify_movie_echo_is_stripped
    (req : IdentifyRequest) (w : openai) (status : Z) (echo : str) :
  fst (identify req w)
  = Raises (HTTPException status
      (lit "Failed to parse response as JSON. Raw response was: " ++ echo)) ->
  strip echo = echo
  /\ (forall c rest, echo = c :: rest -> isspace c = false)
  /\ (forall c front, echo = front ++ [c] -> isspace c = false).
Proof.
  rewrite identify_fst.
  destruct (upstream_answer req w) as [[[|[[[text|]]] others]]|e];
    cbn [choices message content]; try discriminate.
  destruct (json_loads (strip text)) as [result|].
  - destruct (new_response result); discriminate.
  - intros H. apply Raises_HTTPException_inj in H as [_ D].
    apply app_inv_head in D. subst echo.
    split; [apply strip_idem|]. split.
    + intros c rest E. exact (@strip_head _ _ _ E).
    + intros c front E. exact (@strip_last _ _ _ E).
Qed.

(** X14: the detail tells the failure: a detail that starts with the text of
    one of the three [raise] statements comes from that statement, and what
    follows the text is the message of the service's exception, the stripped
    completion, or the message of the validation exception. *)
Theorem identify_movie_detail_tells_failure
    (req : IdentifyRequest) (w : openai) (status : Z) (detail : str) :
  fst (identify req w) = Raises (HTTPException status detail) ->
  (forall e, detail = lit "OpenAI API error: " ++ e ->
             upstream_answer req w = Fails e)
  /\ (forall echo,
        detail = lit "Failed to parse response as JSON. Raw response was: " ++ echo ->
        exists text, answers_text req w text
                     /\ json_loads (strip text) = RaisesJSONDecodeError
                     /\ echo = strip text)
  /\ (forall tail,
        detail = lit "Response JSON missing required fields or invalid types: " ++ tail ->
        exists text result exc,
          answers_text req w text
          /\ json_loads (strip text) = Loaded result
          /\ new_response result = inr exc
          /\ tail = exc_str exc).
Proof.
  rewrite identify_fst.
  destruct (upstream_answer req w) as [[[|[[[text|]]] others]]|e] eqn:U;
    cbn [choices message content]; try discriminate.
  - destruct (json_loads (strip text)) as [result|] eqn:J.
    + destruct (new_response result) as [r|exc] eqn:V; [discriminate|].
      intros H. apply Raises_HTTPException_inj in H as [_ D]. split; [|split].
      * intros e E. rewrite E in D. discriminate D.
      * intros echo E. rewrite E in D. discriminate D.
      * intros tail E. rewrite E in D. apply app_inv_head in D. subst tail.
        exists text, result, exc. repeat split; auto. now exists others.
    + intros H. apply Raises_HTTPException_inj in H as [_ D]. split; [|split].
      * intros e E. rewrite E in D. discriminate D.
      * intros echo E. rewrite E in D. apply app_inv_head in D. subst echo.
        exists text. repeat split; auto. now exists others.
      * intros tail E. rewrite E in D. discriminate D.
  - intros H. apply Raises_HTTPException_inj in H as [_ D]. split; [|split].
    + intros e' E. rewrite E in D. apply app_inv_head in D. now subst.
    + intros echo E. rewrite E in D. discriminate D.
    + intros tail E. rewrite E in D. discriminate D.
Qed.

(** X15: validation reads the four fields and nothing else: two objects that
    map the four names alike give the same response, whatever their other
    keys and the order of their keys. *)
Theorem identify_movie_reads_four_fields
    (req1 req2 : IdentifyRequest) (w1 w2 : openai) (text1 text2 : str)
    (d1 d2 : dict) (response : IdentifyResponse) :
  answers_text req1 w1 text1 ->
  json_loads (strip text1) = Loaded (PDict d1) ->
  answers_text req2 w2 text2 ->
  json_loads (strip text2) = Loaded (PDict d2) ->
  Forall (fun name => dict_get d1 name = dict_get d2 name) field_names ->
  fst (identify req1 w1) = Returns response ->
  fst (identify req2 w2) = Returns response.
Proof.
  intros H1 J1 H2 J2 A R.
  rewrite (identify_on_text str_as_float exc_str H1), J1 in R.
  rewrite (identify_on_text str_as_float exc_str H2), J2.
  cbn [IdentifyResponse_new] in *.
  pose proof (validate_lines str_as_float d1) as V.
  destruct (validate d1) as [r|errs]; [|discriminate].
  inversion R; subst r.
  destruct V as (_ & Hm & Hd & Hr & v & Hv & Hf).
  inversion A as [|? ? A1 T1]; subst. inversion T1 as [|? ? A2 T2]; subst.
  inversion T2 as [|? ? A3 T3]; subst. inversion T3 as [|? ? A4 _]; subst.
  rewrite A1 in Hm. rewrite A2 in Hd. rewrite A3 in Hr. rewrite A4 in Hv.
  rewrite (validate_ok str_as_float _ Hm Hd Hr Hv Hf).
  now destruct response.
Qed.

(** X16: an integer confidence of magnitude at most [2^53] is accepted and
    returned as the float of the same value. *)
Theorem identify_movie_integer_confidence
    (req : IdentifyRequest) (w : openai) (text : str) (d : dict)
    (a b c : str) (z : Z) :
  answers_text req w text ->
  json_loads (strip text) = Loaded (PDict d) ->
  dict_get d (lit "movie_name") = Some (PStr a) ->
  dict_get d (lit "release_date") = Some (PStr b) ->
  dict_get d (lit "rationale") = Some (PStr c) ->
  dict_get d (lit "confidence") = Some (PInt z) ->
  Z.abs z <= 2 ^ 53 ->
  exists f,
    fst (identify req w)
    = Returns {| movie_name := a; release_date := b; rationale := c;
                 confidence := f |}
    /\ float_integer_value f = Some z.
Proof.
  intros Hw J Ha Hb Hc Hn Hz.
  pose proof (@float_of_int_exact z Hz) as X. unfold exactly_representable in X.
  destruct (float_of_int z) as [f|] eqn:F; [|contradiction].
  exists f. split; [|exact X].
  apply identify_valid_object with (text := text) (d := d) (n := PInt z); auto.
  cbn [validate_float]. now rewrite F.
Qed.


End Coverage.

(* ================================================================= *)
(** * Start-up, the prompt and the handler on concrete inputs *)

Lemma startup_empty_variable_witness :
  exists msg, startup (Some dotenv_with_key) empty_key_environ = RaisesRuntimeError msg
              /\ contains (lit "OPENAI_API_KEY is not set") msg = true.
Proof.
  apply (@startup_empty_variable (Some dotenv_with_key) empty_key_environ).
  reflexivity.
Defined.

Lemma build_llm_prompt_injective_witness :
  build_llm_prompt (lit "a heist") <> build_llm_prompt (lit "a heist ").
Proof.
  apply (@build_llm_prompt_injective (lit "a heist") (lit "a heist ")).
  discriminate.
Defined.

Lemma identify_movie_depends_on_answer_witness :
  fst (run heist (stub_completion inception_text))
  = fst (run western (later_service inception_text)).
Proof.
  apply (@identify_movie_depends_on_answer decimal_str_as_float plain_exc_str
           heist western (stub_completion inception_text)
           (later_service inception_text)).
  reflexivity.
Defined.

Lemma identify_movie_reads_first_choice_witness :
  fst (run heist (stub_completion inception_text))
  = fst (run western (busy_service inception_text)).
Proof.
  apply (@identify_movie_reads_first_choice decimal_str_as_float plain_exc_str
           heist western (stub_completion inception_text)
           (busy_service inception_text)
           {| message := {| content := Some inception_text |} |}
           [] [ {| message := {| content := None |} |} ]);
    reflexivity.
Defined.

Lemma identify_movie_ignores_padding_witness :
  fst (run heist (stub_completion ([10%N; 11%N] ++ lit "[1, 2]" ++ [32%N; 160%N])))
  = fst (run western (later_service (lit "[1, 2]"))).
Proof.
  apply (@identify_movie_ignores_padding decimal_str_as_float plain_exc_str
           heist western
           (stub_completion ([10%N; 11%N] ++ lit "[1, 2]" ++ [32%N; 160%N]))
           (later_service (lit "[1, 2]"))
           [10%N; 11%N] (lit "[1, 2]") [32%N; 160%N]).
  - exists []. reflexivity.
  - exists []. reflexivity.
  - repeat constructor.
  - repeat constructor.
Defined.

Lemma identify_movie_blank_completion_witness :
  fst (run heist (stub_completion [32%N; 10%N; 9%N]))
  = Raises (HTTPException 500
      (lit "Failed to parse response as JSON. Raw response was: ")).
Proof.
  apply (@identify_movie_blank_completion decimal_str_as_float plain_exc_str
           heist (stub_completion [32%N; 10%N; 9%N]) [32%N; 10%N; 9%N]).
  - exists []. reflexivity.
  - repeat constructor.
Defined.

Lemma identify_movie_bad_start_witness :
  fst (run heist (stub_completion fenced_text))
  = Raises (HTTPException 500
      (lit "Failed to parse response as JSON. Raw response was: "
       ++ 96%N :: tl fenced_text)).
Proof.
  apply (@identify_movie_bad_start decimal_str_as_float plain_exc_str
           heist (stub_completion fenced_text) fenced_text (tl fenced_text) 96%N).
  - exists []. reflexivity.
  - vm_compute. reflexivity.
  - reflexivity.
Defined.

Lemma identify_movie_echo_is_stripped_witness :
  strip (lit "not json") = lit "not json"
  /\ (forall c rest, lit "not json" = c :: rest -> isspace c = false)
  /\ (forall c front, lit "not json" = front ++ [c] -> isspace c = false).
Proof.
  apply (@identify_movie_echo_is_stripped decimal_str_as_float plain_exc_str
           heist (stub_completion ([32%N] ++ lit "not json" ++ [10%N])) 500
           (lit "not json")).
  vm_compute. reflexivity.
Defined.

Lemma identify_movie_detail_tells_failure_witness :
  (forall e,
     lit "OpenAI API error: " ++ lit "Connection error."
     = lit "OpenAI API error: " ++ e ->
     upstream_answer heist (stub_failure (lit "Connection error.")) = Fails e)
  /\ (forall echo,
        lit "OpenAI API error: " ++ lit "Connection error."
        = lit "Failed to parse response as JSON. Raw response was: " ++ echo ->
        exists text,
          answers_text heist (stub_failure (lit "Connection error.")) text
          /\ json_loads (strip text) = RaisesJSONDecodeError
          /\ echo = strip text)
  /\ (forall tail,
        lit "OpenAI API error: " ++ lit "Connection error."
        = lit "Response JSON missing required fields or invalid types: " ++ tail ->
        exists text result exc,
          answers_text heist (stub_failure (lit "Connection error.")) text
          /\ json_loads (strip text) = Loaded result
          /\ IdentifyResponse_new decimal_str_as_float result = inr exc
          /\ tail = plain_exc_str exc).
Proof.
  apply (@identify_movie_detail_tells_failure decimal_str_as_float plain_exc_str
           heist (stub_failure (lit "Connection error.")) 500
           (lit "OpenAI API error: " ++ lit "Connection error.")).
  reflexivity.
Defined.

Lemma identify_movie_reads_four_fields_witness :
  fst (run western (later_service reordered_text)) = Returns inception.
Proof.
  apply (@identify_movie_reads_four_fields decimal_str_as_float plain_exc_str
           heist western (stub_completion inception_text)
           (later_service reordered_text) inception_text reordered_text
           inception_dict
           [ (lit "confidence", PFloat (float_of_decimal false 87 (-2)));
             (lit "id", PInt 7);
             (lit "rationale", PStr (lit "dream heist"));
             (lit "release_date", PStr (lit "2010-07-16"));
             (lit "movie_name", PStr (lit "Inception")) ]
           inception).
  - exists []. reflexivity.
  - vm_compute. reflexivity.
  - exists []. reflexivity.
  - vm_compute. reflexivity.
  - repeat constructor.
  - vm_compute. reflexivity.
Defined.

Lemma identify_movie_integer_confidence_witness :
  exists f,
    fst (run heist (stub_completion integer_confidence_text))
    = Returns {| movie_name := lit "Inception"; release_date := lit "2010-07-16";
                 rationale := lit "dream heist"; confidence := f |}
    /\ float_integer_value f = Some 1.
Proof.
  apply (@identify_movie_integer_confidence decimal_str_as_float plain_exc_str
           heist (stub_completion integer_confidence_text)
           integer_confidence_text
           [ (lit "movie_name", PStr (lit "Inception"));
             (lit "release_date", PStr (lit "2010-07-16"));
             (lit "rationale", PStr (lit "dream heist"));
             (lit "confidence", PInt 1) ]).
  - exists []. reflexivity.
  - vm_compute. reflexivity.
  - reflexivity.
  - reflexivity.
  - reflexivity.
  - reflexivity.
  - vm_compute. discriminate.
Defined.
